(** * mcp-smart-proxy: the stdio MCP client and the tool registry/router

    A shallow embedding of [internal/mcp] (the [StdioClient]) and of
    [internal/proxy/proxy.go] (the [SmartProxy]), with the provider
    processes, their pipes and the wall clock as an explicit [World].

    - A Go function that does I/O is a function from the world to an
      [Outcome]: it returns a value and a world, or it blocks for ever
      in a read or a write that the provider never serves.
    - A method of [StdioClient] works on the process of its receiver
      only ([PM]); [on c m] runs it in the world.
    - A [range] over a Go map takes the order of its entries as an
      argument; [range_order] says which orders the language allows.
    - Each critical section of [SmartProxy] ([p.mu] held from [Lock] to
      [Unlock]) is one definition; a state between two of them is a
      state other callers can see. *)

From Stdlib Require Import ZArith String List Lia.
From stdpp Require Import base option list strings gmap fin_maps sets.

Open Scope string_scope.
Open Scope list_scope.

#[local] Set Warnings "-register-all".

(** ** Values *)

(** What [encoding/json] decodes into an [interface{}].  A decoded
    [map[string]interface{}] is kept as its list of bindings; a key is
    looked up with [index]. *)
Inductive JSON : Type :=
| JNull
| JBool (b : bool)
| JNum (n : Z)
| JStr (s : string)
| JArr (items : list JSON)
| JObj (fields : list (string * JSON)).

Abbreviation GoMap := (list (string * JSON)).

(** [m[key]] with the comma-ok form: the binding of [key], if any. *)
Fixpoint index (m : GoMap) (key : string) : option JSON :=
  match m with
  | [] => None
  | (k, v) :: rest => if String.eqb k key then Some v else index rest key
  end.

(** One line of a provider's standard output: bytes that are no JSON
    text at all, or the document they denote. *)
Inductive Line : Type :=
| Garbage
| Doc (v : JSON).

(** The errors the two packages build (with [fmt.Errorf]) or pass on. *)
Inductive error : Type :=
| ErrStart                                   (* cmd.Start failed *)
| ErrWrite                                   (* c.stdin.Write failed *)
| ErrProcessDone                             (* Process.Kill on a finished process *)
| ErrReadResponse                            (* "failed to read response" *)
| ErrUnmarshal                               (* json.Unmarshal failed *)
| ErrInvalidResponse (response : GoMap)      (* "invalid response format: %v" *)
| ErrNoTools (result : GoMap)                (* "no tools in response: %v" *)
| ErrToolError (errorData : JSON)            (* "tool error: %v" *)
| ErrInvalidFormat                           (* "invalid response format" *)
| ErrToolNotFound (toolName : string)        (* "tool %s not found" *)
| ErrClientNotAvailable (serverName : string) (* "client for server %s not available" *)
| ErrExecuteTool (toolName : string) (err : error) (* "failed to execute tool %s: %w" *)
| ErrDiscoverTools (err : error).            (* "failed to discover tools: %w" *)

(** A Go result pair [(T, error)]. *)
Inductive Res (A : Type) : Type :=
| Ok (a : A)
| Fail (e : error).
Arguments Ok {A} a.
Arguments Fail {A} e.

(** [json.Unmarshal(line, &response)] with [response] a
    [map[string]interface{}]: [null] leaves the map nil, any other
    document that is not an object is a type error. *)
Definition json_Unmarshal (l : Line) : Res GoMap :=
  match l with
  | Garbage => Fail ErrUnmarshal
  | Doc (JObj fields) => Ok fields
  | Doc JNull => Ok []
  | Doc _ => Fail ErrUnmarshal
  end.

(** ** Package types *)

Record Tool : Type := mkTool {
  Name : string;
  Description : string;
  InputSchema : JSON;          (* interface{}; nil is [JNull] *)
  ServerName : string
}.

(** The [Name] field of [MCPServer] is [MCPServer_Name] here, [Name]
    being the field of [Tool]. *)
Record MCPServer : Type := mkMCPServer {
  MCPServer_Name : string;
  Command : string;
  Args : list string;
  Env : gmap string string
}.

Record MCPConfig : Type := mkMCPConfig {
  MCPServers : gmap string MCPServer
}.

Record ToolCache : Type := mkToolCache {
  Tools : gmap string Tool;
  LastSync : nat;
  ServerMap : gmap string string
}.

(** [context.Context]: only its deadline (a clock value) matters here. *)
Record Context : Type := mkContext {
  Deadline : option nat
}.

(** ** The world outside the proxy *)

(** What a blocking read of the next output line meets.  The client
    reads through a [bufio.Scanner] with the buffer it is born with,
    which grows to [bufio.MaxScanTokenSize] (64 * 1024 bytes) and no
    further: a line that fits it with its newline is one thing, a
    longer one another. *)
Inductive ReadEvent : Type :=
| Arrives (delay : nat) (l : Line)   (* a line of less than 64 KiB, after [delay] ticks *)
| Overlong (delay : nat) (l head : Line)
                                     (* a line [l] of 64 KiB or more; [head] is what
                                        its first 64 KiB are when taken as a line *)
| Closed                             (* end of stream or read error *)
| Never.                             (* the provider stays silent for ever *)

(** The state of the client's [bufio.Scanner].  [Scan] reads from the
    pipe only while no error is recorded.  Once one is, the bytes still
    in the buffer are handed out as a last token (only an over-long
    line leaves any), and every later [Scan] is false without a read. *)
Inductive Scanner : Type :=
| Scanning                           (* no error so far *)
| Holding (held : Line)              (* [ErrTooLong] recorded, the buffer full *)
| Spent.                             (* an error recorded, the buffer empty *)

(** What a write of one request line meets. *)
Inductive WriteEvent : Type :=
| Accepted
| Refused                            (* broken pipe *)
| Stalled.                           (* pipe full, provider never reads *)

(** A provider program: how it meets the next request given the
    requests it already received, and what it has to say given those
    requests and the number of lines already read from it. *)
Record Program : Type := mkProgram {
  accepts : list JSON -> WriteEvent;
  emits : list JSON -> nat -> ReadEvent
}.

(** One spawned process with the two pipes the client holds and the
    scanner the client reads its output through. *)
Record Proc : Type := mkProc {
  image : Program;
  environ : list string;
  alive : bool;
  stdin_open : bool;
  stdout_open : bool;
  received : list JSON;        (* request lines written so far, oldest first *)
  consumed : nat;              (* output lines read so far *)
  reader : Scanner
}.

Record World : Type := mkWorld {
  os_Environ : list string;                  (* the proxy's own environment *)
  os_exec : string -> list string -> list string -> option Program;
                                             (* command, args, environment *)
  procs : list Proc;                         (* process table, pid = position *)
  clock : nat
}.

Definition set_stdin_open (b : bool) (pr : Proc) : Proc :=
  mkProc (image pr) (environ pr) (alive pr) b (stdout_open pr)
         (received pr) (consumed pr) (reader pr).
Definition set_stdout_open (b : bool) (pr : Proc) : Proc :=
  mkProc (image pr) (environ pr) (alive pr) (stdin_open pr) b
         (received pr) (consumed pr) (reader pr).
Definition set_alive (b : bool) (pr : Proc) : Proc :=
  mkProc (image pr) (environ pr) b (stdin_open pr) (stdout_open pr)
         (received pr) (consumed pr) (reader pr).
Definition push_received (req : JSON) (pr : Proc) : Proc :=
  mkProc (image pr) (environ pr) (alive pr) (stdin_open pr) (stdout_open pr)
         (received pr ++ [req]) (consumed pr) (reader pr).
Definition bump_consumed (pr : Proc) : Proc :=
  mkProc (image pr) (environ pr) (alive pr) (stdin_open pr) (stdout_open pr)
         (received pr) (S (consumed pr)) (reader pr).
Definition set_reader (r : Scanner) (pr : Proc) : Proc :=
  mkProc (image pr) (environ pr) (alive pr) (stdin_open pr) (stdout_open pr)
         (received pr) (consumed pr) r.

(** A handle that names no process behaves as a finished process with
    both pipes closed. *)
Definition no_process : Proc :=
  mkProc (mkProgram (fun _ => Refused) (fun _ _ => Closed)) [] false false false [] 0
         Spent.

Definition get_proc (pid : nat) (w : World) : Proc :=
  default no_process (procs w !! pid).

Definition set_proc (pid : nat) (pr : Proc) (w : World) : World :=
  mkWorld (os_Environ w) (os_exec w) (<[pid := pr]> (procs w)) (clock w).

Definition advance (d : nat) (w : World) : World :=
  mkWorld (os_Environ w) (os_exec w) (procs w) (clock w + d).

(** ** Computations that may block *)

Inductive Outcome (A : Type) : Type :=
| Returns (a : A) (w : World)
| Blocks (w : World).
Arguments Returns {A} a w.
Arguments Blocks {A} w.

Definition IO (A : Type) : Type := World -> Outcome A.

Definition ret {A} (a : A) : IO A := fun w => Returns a w.

Definition bind {A B} (m : IO A) (k : A -> IO B) : IO B :=
  fun w => match m w with
           | Returns a w' => k a w'
           | Blocks w' => Blocks w'
           end.

(** The same for the methods of one client, which only touch the
    client's own process; [waited] is the time spent in blocking reads. *)
Inductive POutcome (A : Type) : Type :=
| PReturns (a : A) (pr : Proc) (waited : nat)
| PBlocks (pr : Proc).
Arguments PReturns {A} a pr waited.
Arguments PBlocks {A} pr.

Definition PM (A : Type) : Type := Proc -> POutcome A.

Definition pret {A} (a : A) : PM A := fun pr => PReturns a pr 0.

Definition pbind {A B} (m : PM A) (k : A -> PM B) : PM B :=
  fun pr => match m pr with
            | PReturns a pr' d =>
                match k a pr' with
                | PReturns b pr'' d' => PReturns b pr'' (d + d')
                | PBlocks pr'' => PBlocks pr''
                end
            | PBlocks pr' => PBlocks pr'
            end.

Declare Scope io_scope.
Delimit Scope io_scope with io.
Declare Scope pm_scope.
Delimit Scope pm_scope with pm.

Notation "x <- m ;; k" := (bind m (fun x => k))
  (at level 100, m at next level, right associativity) : io_scope.
Notation "x <- m ;; k" := (pbind m (fun x => k))
  (at level 100, m at next level, right associativity) : pm_scope.

(** [time.Now()]. *)
Definition time_Now : IO nat := fun w => Returns (clock w) w.

(** A [range] over a Go map yields its entries in an order the
    language leaves open: any arrangement of the entries. *)
Definition range_order {V} (m : gmap string V) (order : list (string * V)) : Prop :=
  order ≡ₚ map_to_list m.

(** ** Package mcp *)

Module mcp.

(** The client holds the process handle; its [stdin], [stdout] and
    [reader] are the pipes of that process. *)
Record StdioClient : Type := mkStdioClient {
  cmd : nat
}.

(** [c.stdin.Write(append(data, '\n'))].  The write fails at once on
    a pipe end the client has closed; on an open one the other end
    decides.  What the client knows of the process has no part in it. *)
Definition stdin_Write (req : JSON) : PM (option error) := fun pr =>
  if negb (stdin_open pr) then PReturns (Some ErrWrite) pr 0
  else match accepts (image pr) (received pr) with
       | Accepted => PReturns None (push_received req pr) 0
       | Refused => PReturns (Some ErrWrite) pr 0
       | Stalled => PBlocks pr
       end.

(** [c.reader.Scan()] followed by [c.reader.Bytes()].  A line that
    does not fit the buffer makes [Scan] false ([ErrTooLong]) with the
    buffer still full: the next [Scan] is true on those 64 KiB, and
    after it, as after the end of the stream or a read error, [Scan] is
    false for good. *)
Definition reader_Scan : PM (option Line) := fun pr =>
  match reader pr with
  | Spent => PReturns None pr 0
  | Holding held => PReturns (Some held) (set_reader Spent pr) 0
  | Scanning =>
      if negb (stdout_open pr) then PReturns None (set_reader Spent pr) 0
      else match emits (image pr) (received pr) (consumed pr) with
           | Arrives d l => PReturns (Some l) (bump_consumed pr) d
           | Overlong d _ head => PReturns None (set_reader (Holding head) pr) d
           | Closed => PReturns None (set_reader Spent pr) 0
           | Never => PBlocks pr
           end
  end.

Definition stdin_Close : PM unit := fun pr =>
  PReturns tt (set_stdin_open false pr) 0.
Definition stdout_Close : PM unit := fun pr =>
  PReturns tt (set_stdout_open false pr) 0.

(** [c.cmd.Process.Kill()]. *)
Definition Process_Kill : PM (option error) := fun pr =>
  if alive pr then PReturns None (set_alive false pr) 0
  else PReturns (Some ErrProcessDone) pr 0.

Open Scope pm_scope.

(** [sendRequest]: the request map always marshals. *)
Definition sendRequest (req : JSON) : PM (option error) :=
  stdin_Write req.

Definition readResponse : PM (Res GoMap) :=
  scanned <- reader_Scan ;;
  match scanned with
  | None => pret (Fail ErrReadResponse)
  | Some l => pret (json_Unmarshal l)
  end.

Definition initReq : JSON :=
  JObj [("jsonrpc", JStr "2.0"); ("id", JNum 1); ("method", JStr "initialize");
        ("params", JObj [("protocolVersion", JStr "2024-11-05");
                         ("capabilities", JObj []);
                         ("clientInfo", JObj [("name", JStr "mcp-smart-proxy");
                                              ("version", JStr "1.0.0")])])].

Definition initialize : PM (option error) :=
  err <- sendRequest initReq ;;
  match err with
  | Some e => pret (Some e)
  | None =>
      r <- readResponse ;;
      match r with
      | Ok _ => pret None
      | Fail e => pret (Some e)
      end
  end.

Definition getString (m : GoMap) (key : string) : string :=
  match index m key with
  | Some (JStr val) => val
  | _ => ""
  end.

(** The loop of [ListTools] over [toolsData]. *)
Fixpoint parseTools (toolsData : list JSON) : list Tool :=
  match toolsData with
  | [] => []
  | JObj toolMap :: rest =>
      mkTool (getString toolMap "name") (getString toolMap "description")
             (default JNull (index toolMap "inputSchema")) ""
      :: parseTools rest
  | _ :: rest => parseTools rest
  end.

Definition listReq : JSON :=
  JObj [("jsonrpc", JStr "2.0"); ("id", JNum 2); ("method", JStr "tools/list")].

Definition ListTools (ctx : Context) : PM (Res (list Tool)) :=
  err <- sendRequest listReq ;;
  match err with
  | Some e => pret (Fail e)
  | None =>
      r <- readResponse ;;
      match r with
      | Fail e => pret (Fail e)
      | Ok response =>
          match index response "result" with
          | Some (JObj result) =>
              match index result "tools" with
              | Some (JArr toolsData) => pret (Ok (parseTools toolsData))
              | _ => pret (Fail (ErrNoTools result))
              end
          | _ => pret (Fail (ErrInvalidResponse response))
          end
      end
  end.

Definition callReq (toolName : string) (arguments : GoMap) : JSON :=
  JObj [("jsonrpc", JStr "2.0"); ("id", JNum 3); ("method", JStr "tools/call");
        ("params", JObj [("name", JStr toolName); ("arguments", JObj arguments)])].

Definition CallTool (ctx : Context) (toolName : string) (arguments : GoMap)
  : PM (Res GoMap) :=
  err <- sendRequest (callReq toolName arguments) ;;
  match err with
  | Some e => pret (Fail e)
  | None =>
      r <- readResponse ;;
      match r with
      | Fail e => pret (Fail e)
      | Ok response =>
          match index response "error" with
          | Some errorData => pret (Fail (ErrToolError errorData))
          | None =>
              match index response "result" with
              | Some (JObj result) => pret (Ok result)
              | _ => pret (Fail ErrInvalidFormat)
              end
          end
      end
  end.

(** [Close]: both pipes are non-nil once the client exists, and so is
    the process. *)
Definition Close : PM (option error) :=
  _ <- stdin_Close ;;
  _ <- stdout_Close ;;
  Process_Kill.

Close Scope pm_scope.

(** [c.method(...)]: the method runs on the process behind [c]; the
    time it waited passes on the wall clock. *)
Definition on {A} (c : StdioClient) (m : PM A) : IO A := fun w =>
  match m (get_proc (cmd c) w) with
  | PReturns a pr d => Returns a (advance d (set_proc (cmd c) pr w))
  | PBlocks pr => Blocks (set_proc (cmd c) pr w)
  end.

Open Scope io_scope.

(** The [for k, v := range env] loop of [NewStdioClient]: one
    ["k=v"] entry per override.  The entries are taken in the order of
    [map_to_list]; Go leaves the order open, and it only permutes
    entries whose keys are distinct. *)
Definition cmd_Env (env : gmap string string) : list string :=
  (fun kv => kv.1 +:+ "=" +:+ kv.2) <$> map_to_list env.

(** The environment [os/exec] gives the child: the parent's own when
    [cmd.Env] is nil, otherwise [cmd.Env] and nothing else. *)
Definition child_environ (parent : list string) (cmdEnv : list string) : list string :=
  match cmdEnv with
  | [] => parent
  | _ => cmdEnv
  end.

(** [cmd.StdinPipe()], [cmd.StdoutPipe()], [cmd.Start()] and
    [bufio.NewScanner(stdout)]: a new entry in the process table with
    both pipes open and a scanner that has read nothing, or an error when
    the command cannot be started.  The pipes themselves fail only
    when the proxy is out of file descriptors, which is left out. *)
Definition cmd_Start (command : string) (args : list string) (cmdEnv : list string)
  : IO (Res StdioClient) := fun w =>
  let env := child_environ (os_Environ w) cmdEnv in
  match os_exec w command args env with
  | None => Returns (Fail ErrStart) w
  | Some prog =>
      Returns (Ok (mkStdioClient (length (procs w))))
              (mkWorld (os_Environ w) (os_exec w)
                       (procs w ++ [mkProc prog env true true true [] 0 Scanning])
                       (clock w))
  end.

Definition NewStdioClient (command : string) (args : list string)
    (env : gmap string string) : IO (Res StdioClient) :=
  started <- cmd_Start command args (cmd_Env env) ;;
  match started with
  | Fail e => ret (Fail e)
  | Ok client =>
      err <- on client initialize ;;
      match err with
      | Some e => _ <- on client Close ;; ret (Fail e)
      | None => ret (Ok client)
      end
  end.

Close Scope io_scope.

End mcp.

(** ** Package proxy *)

Module proxy.

Import mcp.
Open Scope io_scope.

(** The fields the registry works on; [mu] is rendered by keeping each
    critical section a definition of its own, and the LLM provider has
    no part in the catalog. *)
Record SmartProxy : Type := mkSmartProxy {
  config : MCPConfig;
  toolCache : ToolCache;
  clients : gmap string StdioClient
}.

Definition set_clients (cs : gmap string StdioClient) (p : SmartProxy) : SmartProxy :=
  mkSmartProxy (config p) (toolCache p) cs.
Definition set_toolCache (tc : ToolCache) (p : SmartProxy) : SmartProxy :=
  mkSmartProxy (config p) tc (clients p).

(** The proxy [New] returns for a configuration file that parses to
    [cfg], an LLM provider being configured. *)
Definition New (cfg : MCPConfig) : SmartProxy :=
  mkSmartProxy cfg (mkToolCache ∅ 0 ∅) ∅.

(** [tool.ServerName = serverName]. *)
Definition set_ServerName (serverName : string) (tool : Tool) : Tool :=
  mkTool (Name tool) (Description tool) (InputSchema tool) serverName.

(** The body of the caching loop: one tool of [serverName]. *)
Definition cache_tool (serverName : string) (tc : ToolCache) (tool : Tool) : ToolCache :=
  let tool' := set_ServerName serverName tool in
  mkToolCache (<[Name tool' := tool']> (Tools tc)) (LastSync tc)
              (<[Name tool' := serverName]> (ServerMap tc)).

(** The body of the loop of [discoverAllTools]: one configured server. *)
Definition discover_server (ctx : Context) (serverName : string)
    (serverConfig : MCPServer) (p : SmartProxy) : IO SmartProxy :=
  r <- NewStdioClient (Command serverConfig) (Args serverConfig) (Env serverConfig) ;;
  match r with
  | Fail _ => ret p
  | Ok client =>
      let p1 := set_clients (<[serverName := client]> (clients p)) p in
      listed <- on client (mcp.ListTools ctx) ;;
      match listed with
      | Fail _ =>
          _ <- on client mcp.Close ;;
          ret (set_clients (delete serverName (clients p1)) p1)
      | Ok tools =>
          ret (set_toolCache (foldl (cache_tool serverName) (toolCache p1) tools) p1)
      end
  end.

Fixpoint discover_servers (ctx : Context) (order : list (string * MCPServer))
    (p : SmartProxy) : IO SmartProxy :=
  match order with
  | [] => ret p
  | (serverName, serverConfig) :: rest =>
      p' <- discover_server ctx serverName serverConfig p ;;
      discover_servers ctx rest p'
  end.

(** [discoverAllTools], one critical section; [order] is the order in
    which the range over [p.config.MCPServers] yields the servers. *)
Definition discoverAllTools (ctx : Context) (order : list (string * MCPServer))
    (p : SmartProxy) : IO (SmartProxy * option error) :=
  p' <- discover_servers ctx order p ;;
  now <- time_Now ;;
  ret (set_toolCache (mkToolCache (Tools (toolCache p')) now (ServerMap (toolCache p'))) p',
       None).

Definition Initialize (ctx : Context) (order : list (string * MCPServer))
    (p : SmartProxy) : IO (SmartProxy * option error) :=
  r <- discoverAllTools ctx order p ;;
  match r.2 with
  | Some err => ret (r.1, Some (ErrDiscoverTools err))
  | None => ret (r.1, None)
  end.

(** [ListTools] of the proxy: the cached descriptors, in the order of
    [map_to_list] (Go leaves the order open). *)
Definition ListTools (ctx : Context) (p : SmartProxy) : list Tool :=
  (map_to_list (Tools (toolCache p))).*2.

Definition UseTool (ctx : Context) (toolName : string) (arguments : GoMap)
    (p : SmartProxy) : IO (Res GoMap) :=
  match ServerMap (toolCache p) !! toolName with
  | None => ret (Fail (ErrToolNotFound toolName))
  | Some serverName =>
      match clients p !! serverName with
      | None => ret (Fail (ErrClientNotAvailable serverName))
      | Some client =>
          r <- on client (CallTool ctx toolName arguments) ;;
          match r with
          | Fail e => ret (Fail (ErrExecuteTool toolName e))
          | Ok result => ret (Ok result)
          end
      end
  end.

(** The loops [for _, client := range p.clients { client.Close() }];
    [closing] is the order in which the range yields the clients. *)
Fixpoint close_clients (closing : list (string * StdioClient)) : IO unit :=
  match closing with
  | [] => ret tt
  | (_, client) :: rest => _ <- on client mcp.Close ;; close_clients rest
  end.

(** The first critical section of [RefreshTools]: close the clients,
    install an empty session map and two empty catalog mappings. *)
Definition RefreshTools_reset (closing : list (string * StdioClient))
    (p : SmartProxy) : IO SmartProxy :=
  _ <- close_clients closing ;;
  ret (mkSmartProxy (config p) (mkToolCache ∅ (LastSync (toolCache p)) ∅) ∅).

(** [RefreshTools]: the reset section, the lock released, then
    [discoverAllTools] taking it again. *)
Definition RefreshTools (ctx : Context) (closing : list (string * StdioClient))
    (order : list (string * MCPServer)) (p : SmartProxy)
  : IO (SmartProxy * option error) :=
  p1 <- RefreshTools_reset closing p ;;
  discoverAllTools ctx order p1.

(** [Close] of the proxy: every client is closed, errors are logged. *)
Definition Close (closing : list (string * StdioClient)) (p : SmartProxy)
  : IO (option error) :=
  _ <- close_clients closing ;; ret None.

Close Scope io_scope.

End proxy.

Import proxy.
Import mcp.

(** ** Package llm: the filter behind both providers *)

Module llm.

(** The first loop of [filterToolsByNames]: the tools by name, a later
    tool replacing an earlier one of the same name. *)
Definition toolMap_of (availableTools : list Tool) : gmap string Tool :=
  foldl (fun toolMap tool => <[Name tool := tool]> toolMap) ∅ availableTools.

Definition maxTools : nat := 5.

(** [filterToolsByNames]: the names are cut to the first [maxTools],
    then each name the map knows appends its tool. *)
Definition filterToolsByNames (selectedNames : list string)
    (availableTools : list Tool) : list Tool :=
  let toolMap := toolMap_of availableTools in
  let selectedNames :=
    if decide (maxTools < length selectedNames)
    then take maxTools selectedNames else selectedNames in
  foldl (fun selectedTools name =>
           match toolMap !! name with
           | Some tool => selectedTools ++ [tool]
           | None => selectedTools
           end) [] selectedNames.

End llm.

Import llm.

(** ** Observations used in the statements *)

(** Whether the process lives and whether each pipe end is open. *)
Definition handles (pr : Proc) : bool * bool * bool :=
  (alive pr, stdin_open pr, stdout_open pr).

(** The session behind [c] is open: the process exists and lives, and
    both pipes are open. *)
Definition session_open (c : StdioClient) (w : World) : Prop :=
  cmd c < length (procs w) ∧ handles (get_proc (cmd c) w) = (true, true, true).

(** The process a configured server gets when it starts, if it does. *)
Definition fresh_proc (w : World) (sc : MCPServer) : option Proc :=
  let env := child_environ (os_Environ w) (cmd_Env (Env sc)) in
  (fun prog => mkProc prog env true true true [] 0 Scanning)
    <$> os_exec w (Command sc) (Args sc) env.

(** What a configured server does when it is connected and asked for
    its tools: the run of [initialize] and then [ListTools] on its
    fresh process. *)
Inductive Probe : Type :=
| Hangs
| Unavailable
| Offers (tools : list Tool).

Definition probe (ctx : Context) (w : World) (sc : MCPServer) : Probe :=
  match fresh_proc w sc with
  | None => Unavailable
  | Some pr0 =>
      match initialize pr0 with
      | PBlocks _ => Hangs
      | PReturns (Some _) _ _ => Unavailable
      | PReturns None pr _ =>
          match ListTools ctx pr with
          | PBlocks _ => Hangs
          | PReturns (Fail _) _ _ => Unavailable
          | PReturns (Ok tools) _ _ => Offers tools
          end
      end
  end.

(** The catalog the loop of [discoverAllTools] builds, as a fold over
    the servers in the order they are visited. *)
Definition merge_server (ctx : Context) (w : World) (tc : ToolCache)
    (entry : string * MCPServer) : ToolCache :=
  match probe ctx w entry.2 with
  | Offers tools => foldl (cache_tool entry.1) tc tools
  | _ => tc
  end.

Definition merge_servers (ctx : Context) (w : World)
    (order : list (string * MCPServer)) (tc : ToolCache) : ToolCache :=
  foldl (merge_server ctx w) tc order.

(** The descriptor [t] cached under [n] was supplied by the listing of
    a visited server, which it names as its owner. *)
Definition supplied (ctx : Context) (w : World) (order : list (string * MCPServer))
    (n : string) (t : Tool) : Prop :=
  ∃ serverName sc tools t0,
    (serverName, sc) ∈ order ∧ probe ctx w sc = Offers tools ∧ t0 ∈ tools
    ∧ Name t0 = n ∧ t = set_ServerName serverName t0.

(** Each cached descriptor sits under its own name, and the owner
    mapping holds its owner. *)
Definition cache_consistent (tc : ToolCache) : Prop :=
  ∀ n t, Tools tc !! n = Some t →
         Name t = n ∧ ServerMap tc !! n = Some (ServerName t).

(** Every live process is the process of a registered session. *)
Definition no_orphans (p : SmartProxy) (w : World) : Prop :=
  ∀ pid pr, procs w !! pid = Some pr → alive pr = true →
    ∃ name, clients p !! name = Some (mkStdioClient pid).

(** A rebuild that ran to completion: a refresh from any state, or the
    initial discovery on the proxy [New] built. *)
Definition completed_rebuild (ctx : Context)
    (closing : list (string * StdioClient)) (order : list (string * MCPServer))
    (p : SmartProxy) (w : World) (p' : SmartProxy) (w' : World) : Prop :=
  (∃ e, RefreshTools ctx closing order p w = Returns (p', e) w') ∨
  (∃ e, p = New (config p) ∧ Initialize ctx order p w = Returns (p', e) w').

(** The world an outcome ends in. *)
Definition final_world {A} (o : Outcome A) : World :=
  match o with
  | Returns _ w => w
  | Blocks w => w
  end.

(** The process an outcome of a client's method ends in. *)
Definition pfinal {A} (o : POutcome A) : Proc :=
  match o with
  | PReturns _ pr _ => pr
  | PBlocks pr => pr
  end.

(** A method that neither closes a pipe nor ends the process. *)
Definition keeps_session {A} (m : PM A) : Prop :=
  ∀ pr, handles (pfinal (m pr)) = handles pr
        ∧ image (pfinal (m pr)) = image pr
        ∧ environ (pfinal (m pr)) = environ pr.

(** A process after [Close]. *)
Definition closed (pr : Proc) : Proc :=
  set_alive false (set_stdout_open false (set_stdin_open false pr)).

(** The world with one more process, [d] ticks later. *)
Definition spawned (w : World) (pr : Proc) (d : nat) : World :=
  mkWorld (os_Environ w) (os_exec w) (procs w ++ [pr]) (clock w + d).

(** Both worlds have the same programs and the same environment of
    the proxy: only the process table and the clock may differ. *)
Definition same_os (w w' : World) : Prop :=
  os_Environ w' = os_Environ w ∧ os_exec w' = os_exec w.


(** ** Example providers *)

(** A provider that takes every request and answers with a fixed
    sequence of read events, then closes its output. *)
Definition scripted (lines : list ReadEvent) : Program :=
  mkProgram (fun _ => Accepted) (fun _ n => default Closed (lines !! n)).

Definition reply (delay : nat) (body : GoMap) : ReadEvent :=
  Arrives delay (Doc (JObj body)).

Definition handshake_reply : ReadEvent :=
  reply 0 [("jsonrpc", JStr "2.0"); ("id", JNum 1); ("result", JObj [])].

Definition tools_reply (names : list string) : ReadEvent :=
  reply 0 [("jsonrpc", JStr "2.0"); ("id", JNum 2);
           ("result",
            JObj [("tools",
                   JArr ((fun n => JObj [("name", JStr n);
                                         ("description", JStr "a tool")])
                           <$> names))])].

Definition result_reply (delay : nat) (result : GoMap) : ReadEvent :=
  reply delay [("jsonrpc", JStr "2.0"); ("id", JNum 3); ("result", JObj result)].

(** A small installation: well-behaved servers with one tool each
    (two of them offer the same tool name), one that answers a call
    after 100 ticks, one that never answers a call, one that answers
    the handshake with bytes that are no JSON, and [npx], which shakes
    hands and lists nothing. *)
Definition demo_exec (command : string) (args : list string) (env : list string)
  : option Program :=
  if String.eqb command "alpha-server" then
    Some (scripted [handshake_reply; tools_reply ["alpha"];
                    result_reply 0 [("answer", JNum 1)]])
  else if String.eqb command "beta-server" then
    Some (scripted [handshake_reply; tools_reply ["beta"];
                    result_reply 0 [("answer", JNum 2)]])
  else if String.eqb command "broken-server" then
    Some (scripted [Arrives 0 Garbage])
  else if String.eqb command "gamma-server" then
    Some (scripted [handshake_reply; tools_reply ["alpha"];
                    result_reply 0 [("answer", JNum 3)]])
  else if String.eqb command "slow-server" then
    Some (scripted [handshake_reply; tools_reply ["slow"];
                    result_reply 100 [("answer", JNum 4)]])
  else if String.eqb command "mute-server" then
    Some (scripted [handshake_reply; tools_reply ["mute"]; Never])
  else if String.eqb command "npx" then
    Some (scripted [handshake_reply; tools_reply []])
  else None.

Definition demo_world : World :=
  mkWorld ["PATH=/usr/bin"; "HOME=/root"] demo_exec [] 0.

Definition demo_config : MCPConfig :=
  mkMCPConfig (list_to_map [("A", mkMCPServer "" "alpha-server" [] ∅);
                            ("B", mkMCPServer "" "beta-server" [] ∅);
                            ("X", mkMCPServer "" "broken-server" [] ∅)]).

Definition demo_ctx : Context := mkContext (Some 60).

Definition demo_order : list (string * MCPServer) :=
  map_to_list (MCPServers demo_config).

(** The proxy and the world once [Initialize] has run on [cfg]. *)
Definition initialized (cfg : MCPConfig) : SmartProxy * World :=
  match Initialize demo_ctx (map_to_list (MCPServers cfg)) (New cfg) demo_world with
  | Returns (p, _) w => (p, w)
  | Blocks w => (New cfg, w)
  end.

Definition slow_config : MCPConfig :=
  mkMCPConfig (list_to_map [("S", mkMCPServer "" "slow-server" [] ∅);
                            ("M", mkMCPServer "" "mute-server" [] ∅)]).

Definition clash_config : MCPConfig :=
  mkMCPConfig (list_to_map [("A", mkMCPServer "" "alpha-server" [] ∅);
                            ("C", mkMCPServer "" "gamma-server" [] ∅)]).




(** The configuration of the quick-start guide for the search server. *)
Definition brave_env : gmap string string :=
  {["BRAVE_API_KEY" := "your-brave-api-key"]}.
Definition brave_args : list string :=
  ["-y"; "@modelcontextprotocol/server-brave-search"].

(** The proxy and the world once a refresh has run. *)
Definition refreshed (closing : list (string * StdioClient))
    (order : list (string * MCPServer)) (pw : SmartProxy * World)
  : SmartProxy * World :=
  match RefreshTools demo_ctx closing order pw.1 pw.2 with
  | Returns (p, _) w => (p, w)
  | Blocks w => (pw.1, w)
  end.

(** The proxy and the world once the first section of a refresh has
    run, and once [discoverAllTools] has. *)
Definition emptied (pw : SmartProxy * World) : SmartProxy * World :=
  match RefreshTools_reset (map_to_list (clients pw.1)) pw.1 pw.2 with
  | Returns p w => (p, w)
  | Blocks w => (pw.1, w)
  end.

Definition discovered (order : list (string * MCPServer)) (pw : SmartProxy * World)
  : SmartProxy * World :=
  match discoverAllTools demo_ctx order pw.1 pw.2 with
  | Returns (p, _) w => (p, w)
  | Blocks w => (pw.1, w)
  end.

(** [pr'] is [pr] after at most one exchange: nothing was written and
    nothing read, or the request [req] was written and then at most one
    line read. *)
Definition one_exchange (req : JSON) (pr pr' : Proc) : Prop :=
  (received pr' = received pr ∧ consumed pr' = consumed pr)
  ∨ (received pr' = received pr ++ [req]
     ∧ (consumed pr' = consumed pr ∨ consumed pr' = S (consumed pr))).


(** The proxy and the world once [Initialize] has run again. *)
Definition initialized_again (order : list (string * MCPServer))
    (pw : SmartProxy * World) : SmartProxy * World :=
  match Initialize demo_ctx order pw.1 pw.2 with
  | Returns (p, _) w => (p, w)
  | Blocks w => (pw.1, w)
  end.

(** * Properties *)

(** ** The methods of one client *)

Lemma keeps_pret {A} (a : A) : keeps_session (pret a).
Proof. by intros pr. Qed.

Lemma keeps_pbind {A B} (m : PM A) (k : A → PM B) :
  keeps_session m → (∀ a, keeps_session (k a)) → keeps_session (pbind m k).
Proof.
  intros Hm Hk pr. unfold pbind.
  destruct (Hm pr) as (H1 & H2 & H3).
  destruct (m pr) as [a pr' d|pr']; simpl in *; [|done].
  destruct (Hk a pr') as (K1 & K2 & K3).
  destruct (k a pr') as [b pr'' d'|pr'']; simpl in *;
    by rewrite K1, K2, K3.
Qed.

Lemma keeps_stdin_Write req : keeps_session (stdin_Write req).
Proof.
  intros pr. unfold stdin_Write.
  destruct (negb _); [done|].
  by destruct (accepts _ _).
Qed.

Lemma keeps_reader_Scan : keeps_session reader_Scan.
Proof.
  intros pr. unfold reader_Scan.
  destruct (reader pr); [|done..].
  destruct (negb _); [done|].
  by destruct (emits _ _ _).
Qed.

Lemma keeps_readResponse : keeps_session readResponse.
Proof.
  apply keeps_pbind; [apply keeps_reader_Scan|].
  intros [l|]; apply keeps_pret.
Qed.

Lemma keeps_initialize : keeps_session initialize.
Proof.
  apply keeps_pbind; [apply keeps_stdin_Write|].
  intros [e|]; [apply keeps_pret|].
  apply keeps_pbind; [apply keeps_readResponse|].
  intros [m|e]; apply keeps_pret.
Qed.

Lemma keeps_ListTools ctx : keeps_session (ListTools ctx).
Proof.
  apply keeps_pbind; [apply keeps_stdin_Write|].
  intros [e|]; [apply keeps_pret|].
  apply keeps_pbind; [apply keeps_readResponse|].
  intros [response|e]; [|apply keeps_pret].
  destruct (index response "result") as [[| | | | |result]|]; try apply keeps_pret.
  destruct (index result "tools") as [[| | | |toolsData|]|]; apply keeps_pret.
Qed.

Lemma keeps_CallTool ctx toolName arguments :
  keeps_session (CallTool ctx toolName arguments).
Proof.
  apply keeps_pbind; [apply keeps_stdin_Write|].
  intros [e|]; [apply keeps_pret|].
  apply keeps_pbind; [apply keeps_readResponse|].
  intros [response|e]; [|apply keeps_pret].
  destruct (index response "error"); [apply keeps_pret|].
  destruct (index response "result") as [[| | | | |result]|]; apply keeps_pret.
Qed.

(** [Close] always returns, at once, and leaves nothing open. *)
Lemma Close_returns pr :
  ∃ err, Close pr = PReturns err (closed pr) 0.
Proof.
  unfold Close, pbind, stdin_Close, stdout_Close, Process_Kill. simpl.
  destruct (alive pr) eqn:Ha; simpl.
  - by eexists.
  - exists (Some ErrProcessDone). f_equal.
    unfold closed, set_alive, set_stdout_open, set_stdin_open. simpl. by rewrite Ha.
Qed.

Lemma handles_closed pr : handles (closed pr) = (false, false, false).
Proof. done. Qed.

(** ** Methods run in the world *)

Lemma get_proc_spawned w pr d : get_proc (length (procs w)) (spawned w pr d) = pr.
Proof.
  unfold get_proc, spawned. simpl.
  by rewrite lookup_app_r, Nat.sub_diag by lia.
Qed.

Lemma set_proc_spawned w pr pr' d :
  set_proc (length (procs w)) pr' (spawned w pr d) = spawned w pr' d.
Proof.
  unfold set_proc, spawned. simpl. f_equal.
  by rewrite insert_app_r_alt, Nat.sub_diag by lia.
Qed.

Lemma advance_spawned w pr d d' : advance d' (spawned w pr d) = spawned w pr (d + d').
Proof. unfold advance, spawned. simpl. f_equal. lia. Qed.

Lemma on_spawned {A} (m : PM A) w pr d0 :
  on (mkStdioClient (length (procs w))) m (spawned w pr d0) =
  match m pr with
  | PReturns a pr' d => Returns a (spawned w pr' (d0 + d))
  | PBlocks pr' => Blocks (spawned w pr' d0)
  end.
Proof.
  unfold on. simpl. rewrite get_proc_spawned.
  destruct (m pr) as [a pr' d|pr'].
  - by rewrite set_proc_spawned, advance_spawned.
  - by rewrite set_proc_spawned.
Qed.

Lemma cmd_Start_eq sc w :
  cmd_Start (Command sc) (Args sc) (cmd_Env (Env sc)) w =
  match fresh_proc w sc with
  | None => Returns (Fail ErrStart) w
  | Some pr0 => Returns (Ok (mkStdioClient (length (procs w)))) (spawned w pr0 0)
  end.
Proof.
  unfold cmd_Start, fresh_proc.
  destruct (os_exec w _ _ _) as [prog|]; simpl; [|done].
  unfold spawned. do 2 f_equal. lia.
Qed.

Lemma NewStdioClient_eq sc w :
  NewStdioClient (Command sc) (Args sc) (Env sc) w =
  match fresh_proc w sc with
  | None => Returns (Fail ErrStart) w
  | Some pr0 =>
      match initialize pr0 with
      | PBlocks pr => Blocks (spawned w pr 0)
      | PReturns (Some e) pr d => Returns (Fail e) (spawned w (closed pr) d)
      | PReturns None pr d =>
          Returns (Ok (mkStdioClient (length (procs w)))) (spawned w pr d)
      end
  end.
Proof.
  unfold NewStdioClient, bind. rewrite cmd_Start_eq.
  destruct (fresh_proc w sc) as [pr0|]; [|done].
  rewrite on_spawned.
  destruct (initialize pr0) as [[e|] pr d|pr]; simpl; try done.
  rewrite on_spawned. destruct (Close_returns pr) as [err ->].
  unfold ret. do 2 f_equal. lia.
Qed.

(** The loop body, case by case. *)
Lemma discover_server_eq ctx serverName sc p w :
  discover_server ctx serverName sc p w =
  match fresh_proc w sc with
  | None => Returns p w
  | Some pr0 =>
      match initialize pr0 with
      | PBlocks pr => Blocks (spawned w pr 0)
      | PReturns (Some e) pr d => Returns p (spawned w (closed pr) d)
      | PReturns None pr d =>
          match ListTools ctx pr with
          | PBlocks pr' => Blocks (spawned w pr' d)
          | PReturns (Fail e) pr' d' =>
              Returns (set_clients (delete serverName (clients p)) p)
                      (spawned w (closed pr') (d + d'))
          | PReturns (Ok tools) pr' d' =>
              Returns (set_toolCache
                         (foldl (cache_tool serverName) (toolCache p) tools)
                         (set_clients
                            (<[serverName := mkStdioClient (length (procs w))]> (clients p))
                            p))
                      (spawned w pr' (d + d'))
          end
      end
  end.
Proof.
  unfold discover_server, bind. rewrite NewStdioClient_eq.
  destruct (fresh_proc w sc) as [pr0|]; [|done].
  destruct (initialize pr0) as [[e|] pr d|pr]; simpl; try done.
  rewrite on_spawned.
  destruct (ListTools ctx pr) as [[tools|e] pr' d'|pr']; simpl; try done.
  rewrite on_spawned. destruct (Close_returns pr') as [err ->].
  unfold ret, set_clients. simpl. rewrite delete_insert_eq.
  do 2 f_equal. lia.
Qed.

Lemma same_os_refl w : same_os w w.
Proof. done. Qed.

Lemma same_os_trans w1 w2 w3 : same_os w1 w2 → same_os w2 w3 → same_os w1 w3.
Proof. intros [H1 H2] [H3 H4]. split; congruence. Qed.

Lemma same_os_spawned w pr d : same_os w (spawned w pr d).
Proof. done. Qed.

Lemma fresh_proc_same_os w w' sc :
  same_os w w' → fresh_proc w' sc = fresh_proc w sc.
Proof. intros [H1 H2]. unfold fresh_proc. by rewrite H1, H2. Qed.

Lemma probe_same_os ctx w w' sc : same_os w w' → probe ctx w' sc = probe ctx w sc.
Proof. intros H. unfold probe. by rewrite (fresh_proc_same_os _ _ _ H). Qed.

Lemma merge_servers_same_os ctx w w' order tc :
  same_os w w' → merge_servers ctx w' order tc = merge_servers ctx w order tc.
Proof.
  intros H. unfold merge_servers. revert tc.
  induction order as [|entry rest IH]; intros tc; simpl; [done|].
  rewrite IH. unfold merge_server. by rewrite (probe_same_os _ _ _ _ H).
Qed.

Lemma fresh_proc_handles w sc pr0 :
  fresh_proc w sc = Some pr0 → handles pr0 = (true, true, true).
Proof.
  unfold fresh_proc. destruct (os_exec _ _ _ _); simpl; [|done].
  by intros [= <-].
Qed.

(** One server of the loop: what a returning iteration has done. *)
Lemma discover_server_step ctx serverName sc p w p' w' :
  discover_server ctx serverName sc p w = Returns p' w' →
  same_os w w' ∧ config p' = config p ∧
  ((probe ctx w sc = Unavailable ∧ toolCache p' = toolCache p ∧
    (clients p' = clients p ∨ clients p' = delete serverName (clients p)) ∧
    ∃ new, procs w' = procs w ++ new ∧
           Forall (λ pr, handles pr = (false, false, false)) new)
   ∨
   (∃ tools pr, probe ctx w sc = Offers tools ∧
      toolCache p' = foldl (cache_tool serverName) (toolCache p) tools ∧
      clients p' = <[serverName := mkStdioClient (length (procs w))]> (clients p) ∧
      procs w' = procs w ++ [pr] ∧ handles pr = (true, true, true))).
Proof.
  rewrite discover_server_eq. unfold probe.
  destruct (fresh_proc w sc) as [pr0|] eqn:Hfresh.
  2:{ intros [= <- <-]. repeat split. left. repeat split; [by left|].
      exists []. by rewrite app_nil_r. }
  pose proof (fresh_proc_handles _ _ _ Hfresh) as Hpr0.
  destruct (keeps_initialize pr0) as (Hi & _ & _).
  destruct (initialize pr0) as [[e|] pr d|pr]; simpl in Hi.
  - intros [= <- <-]. repeat split. left. repeat split; [by left|].
    exists [closed pr]. split; [done|]. by constructor.
  - destruct (keeps_ListTools ctx pr) as (Hl & _ & _).
    destruct (ListTools ctx pr) as [[tools|e] pr' d'|pr']; simpl in Hl.
    + intros [= <- <-]. repeat split. right. exists tools, pr'.
      repeat split. congruence.
    + intros [= <- <-]. repeat split. left. repeat split; [by right|].
      exists [closed pr']. split; [done|]. by constructor.
    + done.
  - done.
Qed.

(** An iteration returns unless the server hangs. *)
Lemma discover_server_returns ctx serverName sc p w :
  probe ctx w sc ≠ Hangs → ∃ p' w', discover_server ctx serverName sc p w = Returns p' w'.
Proof.
  rewrite discover_server_eq. unfold probe.
  destruct (fresh_proc w sc) as [pr0|]; [|by eauto].
  destruct (initialize pr0) as [[e|] pr d|pr]; [by eauto| |done].
  destruct (ListTools ctx pr) as [[tools|e] pr' d'|pr']; by eauto.
Qed.

Lemma discover_server_blocks ctx serverName sc p w :
  probe ctx w sc = Hangs → ∃ w', discover_server ctx serverName sc p w = Blocks w'.
Proof.
  rewrite discover_server_eq. unfold probe.
  destruct (fresh_proc w sc) as [pr0|]; [|done].
  destruct (initialize pr0) as [[e|] pr d|pr]; [done| |by eauto].
  destruct (ListTools ctx pr) as [[tools|e] pr' d'|pr']; by eauto.
Qed.

(** ** The loop of [discoverAllTools] *)

Lemma discover_servers_cons ctx serverName sc rest p w p' w' :
  discover_servers ctx ((serverName, sc) :: rest) p w = Returns p' w' →
  ∃ p1 w1, discover_server ctx serverName sc p w = Returns p1 w1
           ∧ discover_servers ctx rest p1 w1 = Returns p' w'.
Proof.
  simpl. unfold bind.
  destruct (discover_server ctx serverName sc p w) as [p1 w1|w1]; [|done].
  by eauto.
Qed.

(** The catalog of a returning loop is the fold over the visited
    servers; the process table only grows. *)
Lemma discover_servers_catalog ctx order p w p' w' :
  discover_servers ctx order p w = Returns p' w' →
  same_os w w' ∧ config p' = config p
  ∧ toolCache p' = merge_servers ctx w order (toolCache p)
  ∧ ∃ new, procs w' = procs w ++ new.
Proof.
  revert p w. induction order as [|[serverName sc] rest IH]; intros p w.
  - intros [= <- <-]. repeat split. exists []. by rewrite app_nil_r.
  - intros (p1 & w1 & Hstep & Hrest)%discover_servers_cons.
    apply discover_server_step in Hstep as (Hos & Hcfg & Hcase).
    apply IH in Hrest as (Hos' & Hcfg' & Htc & new' & Hprocs).
    split; [by eapply same_os_trans|]. split; [congruence|].
    rewrite (merge_servers_same_os _ _ _ _ _ Hos) in Htc.
    split.
    + rewrite Htc. unfold merge_servers. simpl. f_equal.
      unfold merge_server. simpl.
      destruct Hcase as [(-> & -> & _)|(tools & pr & -> & -> & _)]; done.
    + destruct Hcase as [(_ & _ & _ & new & Hnew & _)|(tools & pr & _ & _ & _ & Hnew & _)];
        rewrite Hprocs, Hnew, <- app_assoc; by eauto.
Qed.

Lemma session_open_grow c w w' new :
  procs w' = procs w ++ new → session_open c w → session_open c w'.
Proof.
  intros Hprocs [Hlt Hh]. unfold session_open, get_proc in *.
  rewrite Hprocs, length_app, lookup_app_l by done.
  split; [lia|done].
Qed.

(** The session map of a returning loop, the visited names being
    distinct: a server that offers tools has an open session of its
    own, spawned by this loop; every process the loop left alive is
    registered. *)
Lemma discover_servers_clients ctx order p w p' w' :
  NoDup order.*1 →
  discover_servers ctx order p w = Returns p' w' →
  (∀ name, name ∉ order.*1 → clients p' !! name = clients p !! name)
  ∧ (∀ name sc, (name, sc) ∈ order →
       match probe ctx w sc with
       | Offers _ => ∃ c, clients p' !! name = Some c
                          ∧ (length (procs w) ≤ cmd c)%nat ∧ session_open c w'
       | _ => clients p' !! name = None ∨ clients p' !! name = clients p !! name
       end)
  ∧ (∀ pid pr, (length (procs w) ≤ pid)%nat → procs w' !! pid = Some pr →
       alive pr = true →
       ∃ name, name ∈ order.*1 ∧ clients p' !! name = Some (mkStdioClient pid)).
Proof.
  revert p w. induction order as [|[serverName sc] rest IH]; intros p w Hnd.
  - intros [= <- <-]. split; [done|]. split.
    + intros name sc' Hin. by apply elem_of_nil in Hin.
    + intros pid pr Hge Hlook _. apply lookup_lt_Some in Hlook. lia.
  - intros (p1 & w1 & Hstep & Hrest)%discover_servers_cons.
    simpl in Hnd. apply NoDup_cons in Hnd as [Hfresh Hnd].
    pose proof (discover_servers_catalog _ _ _ _ _ _ Hrest)
      as (_ & _ & _ & new' & Hprocs').
    apply discover_server_step in Hstep as (Hos & Hcfg & Hcase).
    destruct (IH _ _ Hnd Hrest) as (Hout & Hin & Horph).
    assert (Hother : ∀ name, name ≠ serverName →
                             clients p1 !! name = clients p !! name).
    { intros name Hne.
      destruct Hcase as [(_ & _ & [->| ->] & _)|(tools & pr & _ & _ & -> & _)];
        [done|by rewrite lookup_delete_ne|by rewrite lookup_insert_ne]. }
    split; [|split].
    + intros name Hname. simpl in Hname. apply not_elem_of_cons in Hname as [Hne Hname].
      rewrite Hout by done. by apply Hother.
    + intros name sc' Hmem. apply elem_of_cons in Hmem as [[= -> ->]|Hmem].
      * rewrite (Hout _ Hfresh).
        destruct Hcase as [(-> & _ & [->| ->] & _)|(tools & pr & -> & _ & -> & Hnew & Hh)].
        -- by right.
        -- left. by rewrite lookup_delete_eq.
        -- exists (mkStdioClient (length (procs w))).
           rewrite lookup_insert_eq. split; [done|]. split; [done|].
           apply (session_open_grow _ w1 _ new'); [done|].
           unfold session_open, get_proc. simpl.
           rewrite Hnew, length_app, lookup_app_r, Nat.sub_diag by lia. simpl.
           split; [lia|done].
      * specialize (Hin _ _ Hmem). rewrite (probe_same_os _ _ _ _ Hos) in Hin.
        assert (name ≠ serverName) as Hne.
        { intros ->. apply Hfresh. apply list_elem_of_fmap. by exists (serverName, sc'). }
        assert (length (procs w) ≤ length (procs w1))%nat as Hle.
        { destruct Hcase as [(_ & _ & _ & new & -> & _)|(tools & pr & _ & _ & _ & -> & _)];
            rewrite length_app; lia. }
        destruct (probe ctx w sc').
        -- by rewrite <- (Hother _ Hne).
        -- by rewrite <- (Hother _ Hne).
        -- destruct Hin as (c & Hc & Hge & Hopen). exists c. repeat split; [done|lia|apply Hopen..].
    + intros pid pr Hge Hlook Halive.
      destruct (decide (length (procs w1) ≤ pid)%nat) as [Hge1|Hlt1].
      * destruct (Horph _ _ Hge1 Hlook Halive) as (name & Hname & Hc).
        exists name. split; [|done]. simpl. by apply elem_of_cons; right.
      * rewrite Hprocs', lookup_app_l in Hlook by lia.
        destruct Hcase as [(_ & _ & _ & new & Hnew & Hdead)|(tools & pr1 & _ & _ & Hcl & Hnew & _)].
        -- rewrite Hnew, lookup_app_r in Hlook by lia.
           apply list_elem_of_lookup_2 in Hlook.
           rewrite Forall_forall in Hdead. apply Hdead in Hlook.
           unfold handles in Hlook. congruence.
        -- assert (pid = length (procs w)) as ->.
           { rewrite Hnew, length_app in Hlt1. simpl in Hlt1. lia. }
           exists serverName. split; [simpl; by apply elem_of_cons; left|].
           rewrite (Hout _ Hfresh), Hcl. by rewrite lookup_insert_eq.
Qed.

(** The loop returns when no server hangs, and only then. *)
Lemma discover_servers_returns ctx order p w :
  (∀ name sc, (name, sc) ∈ order → probe ctx w sc ≠ Hangs) →
  ∃ p' w', discover_servers ctx order p w = Returns p' w'.
Proof.
  revert p w. induction order as [|[serverName sc] rest IH]; intros p w Hno.
  - by eexists _, _.
  - destruct (discover_server_returns ctx serverName sc p w) as (p1 & w1 & Hstep).
    { apply (Hno serverName). by left. }
    pose proof (discover_server_step _ _ _ _ _ _ _ Hstep) as (Hos & _).
    destruct (IH p1 w1) as (p' & w' & Hrest).
    { intros name sc' Hin. rewrite (probe_same_os _ _ _ _ Hos).
      apply (Hno name). by right. }
    exists p', w'. simpl. unfold bind. by rewrite Hstep.
Qed.

Lemma discover_servers_no_hang ctx order p w p' w' :
  discover_servers ctx order p w = Returns p' w' →
  ∀ name sc, (name, sc) ∈ order → probe ctx w sc ≠ Hangs.
Proof.
  revert p w. induction order as [|[serverName sc] rest IH]; intros p w.
  - intros _ name sc Hin. by apply elem_of_nil in Hin.
  - intros (p1 & w1 & Hstep & Hrest)%discover_servers_cons name sc' Hin.
    apply elem_of_cons in Hin as [[= -> ->]|Hin].
    + intros Hhang. destruct (discover_server_blocks ctx serverName sc p w Hhang) as [w2 Hb].
      congruence.
    + apply discover_server_step in Hstep as (Hos & _).
      rewrite <- (probe_same_os _ _ _ _ Hos). by eapply IH.
Qed.

(** ** The catalog as a fold *)

Lemma cache_tools_snoc serverName tc tools t0 :
  foldl (cache_tool serverName) tc (tools ++ [t0]) =
  cache_tool serverName (foldl (cache_tool serverName) tc tools) t0.
Proof. by rewrite foldl_app. Qed.

Lemma merge_servers_snoc ctx w order entry tc :
  merge_servers ctx w (order ++ [entry]) tc =
  merge_server ctx w (merge_servers ctx w order tc) entry.
Proof. unfold merge_servers. by rewrite foldl_app. Qed.

(** Both mappings are written together. *)
Lemma cache_tools_dom serverName tools tc :
  dom (Tools tc) = dom (ServerMap tc) →
  dom (Tools (foldl (cache_tool serverName) tc tools))
  = dom (ServerMap (foldl (cache_tool serverName) tc tools)).
Proof.
  revert tc. induction tools as [|t0 tools IH]; intros tc Hdom; simpl; [done|].
  apply IH. simpl. rewrite !dom_insert_L. by rewrite Hdom.
Qed.

Lemma merge_servers_dom ctx w order tc :
  dom (Tools tc) = dom (ServerMap tc) →
  dom (Tools (merge_servers ctx w order tc))
  = dom (ServerMap (merge_servers ctx w order tc)).
Proof.
  unfold merge_servers. revert tc.
  induction order as [|entry rest IH]; intros tc Hdom; simpl; [done|].
  apply IH. unfold merge_server.
  destruct (probe ctx w entry.2); [done..|]. by apply cache_tools_dom.
Qed.

Lemma cache_tools_consistent serverName tools tc :
  cache_consistent tc → cache_consistent (foldl (cache_tool serverName) tc tools).
Proof.
  revert tc. induction tools as [|t0 tools IH]; intros tc Hc; simpl; [done|].
  apply IH. intros n t. simpl.
  destruct (decide (Name t0 = n)) as [<-|Hne].
  - rewrite !lookup_insert_eq. by intros [= <-].
  - rewrite !lookup_insert_ne by done. apply Hc.
Qed.

Lemma merge_servers_consistent ctx w order tc :
  cache_consistent tc → cache_consistent (merge_servers ctx w order tc).
Proof.
  unfold merge_servers. revert tc.
  induction order as [|entry rest IH]; intros tc Hc; simpl; [done|].
  apply IH. unfold merge_server.
  destruct (probe ctx w entry.2); [done..|]. by apply cache_tools_consistent.
Qed.

(** Where an entry of the cache after one listing comes from. *)
Lemma cache_tools_lookup serverName tools tc n t :
  Tools (foldl (cache_tool serverName) tc tools) !! n = Some t →
  Tools tc !! n = Some t
  ∨ ∃ t0, t0 ∈ tools ∧ Name t0 = n ∧ t = set_ServerName serverName t0.
Proof.
  induction tools as [|t0 tools IH] using rev_ind; simpl; [by left|].
  rewrite cache_tools_snoc. simpl.
  destruct (decide (Name t0 = n)) as [<-|Hne].
  - rewrite lookup_insert_eq. intros [= <-]. right. exists t0.
    split; [apply elem_of_app; right; by left|done].
  - rewrite lookup_insert_ne by done. intros [H|(t1 & Hin & H)]%IH; [by left|].
    right. exists t1. split; [apply elem_of_app; by left|done].
Qed.

(** Every listed tool is cached, tagged with the listing server. *)
Lemma cache_tools_listed serverName tools tc t0 :
  t0 ∈ tools →
  ∃ t, Tools (foldl (cache_tool serverName) tc tools) !! Name t0 = Some t
       ∧ ServerName t = serverName.
Proof.
  induction tools as [|t1 tools IH] using rev_ind; [by intros ?%elem_of_nil|].
  rewrite cache_tools_snoc. simpl. intros Hin.
  destruct (decide (Name t1 = Name t0)) as [Heq|Hne].
  - rewrite Heq, lookup_insert_eq. by eexists.
  - rewrite lookup_insert_ne by done. apply IH.
    apply elem_of_app in Hin as [Hin|Hin]; [done|].
    apply list_elem_of_singleton in Hin. congruence.
Qed.

(** A name no listed tool bears keeps its entry. *)
Lemma cache_tools_other serverName tools tc n :
  n ∉ Name <$> tools →
  Tools (foldl (cache_tool serverName) tc tools) !! n = Tools tc !! n.
Proof.
  induction tools as [|t1 tools IH] using rev_ind; [done|].
  rewrite cache_tools_snoc, fmap_app. simpl. intros Hn.
  apply not_elem_of_app in Hn as [Hn1 Hn2].
  rewrite lookup_insert_ne; [by apply IH|].
  intros Heq. apply Hn2. rewrite <- Heq. by left.
Qed.

(** The entry of a listed name does not depend on the cache before. *)
Lemma cache_tools_fresh serverName tools tc tc' n :
  n ∈ Name <$> tools →
  Tools (foldl (cache_tool serverName) tc tools) !! n
  = Tools (foldl (cache_tool serverName) tc' tools) !! n.
Proof.
  induction tools as [|t1 tools IH] using rev_ind; [by intros ?%elem_of_nil|].
  rewrite !cache_tools_snoc, fmap_app. simpl. intros Hn.
  destruct (decide (Name t1 = n)) as [<-|Hne].
  - by rewrite !lookup_insert_eq.
  - rewrite !lookup_insert_ne by done. apply IH.
    apply elem_of_app in Hn as [Hn|Hn]; [done|].
    apply list_elem_of_singleton in Hn. congruence.
Qed.

Lemma cache_tools_mono serverName tools tc n :
  is_Some (Tools tc !! n) →
  is_Some (Tools (foldl (cache_tool serverName) tc tools) !! n).
Proof.
  revert tc. induction tools as [|t0 tools IH]; intros tc Hs; simpl; [done|].
  apply IH. simpl. destruct (decide (Name t0 = n)) as [<-|Hne].
  - by rewrite lookup_insert_eq.
  - by rewrite lookup_insert_ne.
Qed.

Lemma merge_servers_mono ctx w order tc n :
  is_Some (Tools tc !! n) → is_Some (Tools (merge_servers ctx w order tc) !! n).
Proof.
  unfold merge_servers. revert tc.
  induction order as [|entry rest IH]; intros tc Hs; simpl; [done|].
  apply IH. unfold merge_server.
  destruct (probe ctx w entry.2); [done..|]. by apply cache_tools_mono.
Qed.

(** Provenance: an entry of the merged catalog was there before, or a
    visited server's listing supplied it. *)
Lemma merge_servers_lookup ctx w order tc n t :
  Tools (merge_servers ctx w order tc) !! n = Some t →
  Tools tc !! n = Some t ∨ supplied ctx w order n t.
Proof.
  induction order as [|[serverName sc] order IH] using rev_ind; [by left|].
  rewrite merge_servers_snoc. unfold merge_server. simpl.
  assert (Hweak : supplied ctx w order n t → supplied ctx w (order ++ [(serverName, sc)]) n t).
  { intros (s & sc' & tools & t0 & Hin & H). exists s, sc', tools, t0.
    split; [apply elem_of_app; by left|done]. }
  destruct (probe ctx w sc) as [| |tools] eqn:Hprobe.
  - intros [H|H]%IH; [by left|right; by apply Hweak].
  - intros [H|H]%IH; [by left|right; by apply Hweak].
  - intros [[H|H]%IH|(t0 & Hin & Hn & Ht)]%cache_tools_lookup;
      [by left|right; by apply Hweak|].
    right. exists serverName, sc, tools, t0.
    split; [apply elem_of_app; right; by left|done].
Qed.

(** Presence: every tool a visited server lists is in the merged
    catalog. *)
Lemma merge_servers_listed ctx w order tc serverName sc tools t0 :
  (serverName, sc) ∈ order → probe ctx w sc = Offers tools → t0 ∈ tools →
  is_Some (Tools (merge_servers ctx w order tc) !! Name t0).
Proof.
  unfold merge_servers. revert tc.
  induction order as [|entry rest IH]; intros tc Hin Hprobe Ht0;
    [by apply elem_of_nil in Hin|].
  simpl. apply elem_of_cons in Hin as [<-|Hin]; [|by apply IH].
  apply merge_servers_mono. unfold merge_server. simpl. rewrite Hprobe.
  destruct (cache_tools_listed serverName tools tc t0 Ht0) as (t & -> & _).
  by eexists.
Qed.

(** ** Closing the clients *)

Lemma closed_closed pr : closed (closed pr) = closed pr.
Proof. done. Qed.

Lemma on_Close c w :
  ∃ err, on c Close w
         = Returns err (advance 0 (set_proc (cmd c) (closed (get_proc (cmd c) w)) w)).
Proof.
  unfold on. destruct (Close_returns (get_proc (cmd c) w)) as [err ->]. by eexists.
Qed.

(** The closing loop always returns; it closes the processes of the
    clients it visits and touches nothing else. *)
Lemma close_clients_spec closing w :
  ∃ w1, close_clients closing w = Returns tt w1
        ∧ same_os w w1
        ∧ ∀ pid, procs w1 !! pid
                 = (if decide (pid ∈ cmd <$> closing.*2) then closed else id)
                     <$> procs w !! pid.
Proof.
  revert w. induction closing as [|[name c] rest IH]; intros w.
  - exists w. repeat split. intros pid.
    case_decide as H; [by apply elem_of_nil in H|].
    by destruct (procs w !! pid).
  - simpl. unfold bind. destruct (on_Close c w) as [err ->].
    set (w2 := advance 0 _).
    destruct (IH w2) as (w1 & -> & Hos & Hprocs).
    exists w1. split; [done|]. split; [by destruct Hos|].
    intros pid. rewrite Hprocs. subst w2. cbn [procs advance set_proc].
    destruct (decide (pid = cmd c)) as [->|Hne].
    + rewrite (decide_True (P := cmd c ∈ cmd c :: _)) by (by left).
      unfold get_proc.
      destruct (procs w !! cmd c) as [pr|] eqn:Hpr.
      * rewrite list_lookup_insert_eq by (by eapply lookup_lt_Some). simpl.
        by case_decide.
      * rewrite list_insert_ge by (by apply lookup_ge_None). rewrite Hpr.
        by case_decide.
    + rewrite list_lookup_insert_ne by done.
      destruct (decide (pid ∈ cmd <$> rest.*2)) as [Hin|Hnin].
      * rewrite (decide_True (P := pid ∈ cmd c :: _)) by (by right). done.
      * rewrite (decide_False (P := pid ∈ cmd c :: _)); [done|].
        intros [?|?]%elem_of_cons; done.
Qed.

Lemma close_clients_length closing w w1 :
  close_clients closing w = Returns tt w1 → length (procs w1) = length (procs w).
Proof.
  destruct (close_clients_spec closing w) as (w1' & -> & _ & Hprocs).
  intros [= <-]. apply Nat.le_antisymm.
  - apply Nat.nlt_ge. intros Hlt.
    destruct (lookup_lt_is_Some_2 (procs w1') (length (procs w))) as [pr Hpr]; [done|].
    rewrite Hprocs, lookup_ge_None_2 in Hpr by done. done.
  - apply Nat.nlt_ge. intros Hlt.
    destruct (lookup_lt_is_Some_2 (procs w) (length (procs w1'))) as [pr Hpr]; [done|].
    specialize (Hprocs (length (procs w1'))).
    rewrite Hpr, lookup_ge_None_2 in Hprocs by done. done.
Qed.

(** ** The two sections of a refresh *)

Lemma RefreshTools_reset_eq closing p w :
  ∃ w1, RefreshTools_reset closing p w
        = Returns (mkSmartProxy (config p)
                     (mkToolCache ∅ (LastSync (toolCache p)) ∅) ∅) w1
        ∧ close_clients closing w = Returns tt w1.
Proof.
  unfold RefreshTools_reset, bind.
  destruct (close_clients_spec closing w) as (w1 & -> & _). by exists w1.
Qed.

Lemma discoverAllTools_inv ctx order p w r w' :
  discoverAllTools ctx order p w = Returns r w' →
  ∃ p2, discover_servers ctx order p w = Returns p2 w'
        ∧ r = (set_toolCache
                 (mkToolCache (Tools (toolCache p2)) (clock w')
                              (ServerMap (toolCache p2))) p2, None).
Proof.
  unfold discoverAllTools, bind, time_Now, ret.
  destruct (discover_servers ctx order p w) as [p2 w2|w2]; [|done].
  intros [= <- <-]. by exists p2.
Qed.

Lemma Initialize_inv ctx order p w r w' :
  Initialize ctx order p w = Returns r w' →
  discoverAllTools ctx order p w = Returns r w' ∧ r.2 = None.
Proof.
  unfold Initialize, bind.
  destruct (discoverAllTools ctx order p w) as [r0 w0|w0] eqn:Hdisc; [|done].
  apply discoverAllTools_inv in Hdisc as (p2 & _ & ->). simpl.
  by intros [= <- <-].
Qed.

Lemma RefreshTools_inv ctx closing order p w r w' :
  RefreshTools ctx closing order p w = Returns r w' →
  ∃ p1 w1, RefreshTools_reset closing p w = Returns p1 w1
           ∧ discoverAllTools ctx order p1 w1 = Returns r w'.
Proof.
  unfold RefreshTools, bind.
  destruct (RefreshTools_reset closing p w) as [p1 w1|w1]; [|done].
  by eauto.
Qed.

(** What every completed rebuild amounts to: the loop of
    [discoverAllTools] run from an empty catalog and an empty session
    map, in a world with the same programs. *)
Lemma completed_rebuild_inv ctx closing order p w p' w' :
  completed_rebuild ctx closing order p w p' w' →
  ∃ p0 w0 p2,
    same_os w w0 ∧ config p0 = config p
    ∧ Tools (toolCache p0) = ∅ ∧ ServerMap (toolCache p0) = ∅ ∧ clients p0 = ∅
    ∧ discover_servers ctx order p0 w0 = Returns p2 w'
    ∧ Tools (toolCache p') = Tools (toolCache p2)
    ∧ ServerMap (toolCache p') = ServerMap (toolCache p2)
    ∧ clients p' = clients p2.
Proof.
  intros [[e H]|[e [Hnew H]]].
  - apply RefreshTools_inv in H as (p1 & w1 & Hreset & Hdisc).
    destruct (RefreshTools_reset_eq closing p w) as (w1' & Hreset' & Hclose).
    rewrite Hreset' in Hreset. injection Hreset as <- <-.
    destruct (close_clients_spec closing w) as (w1 & Hclose' & Hos & _).
    rewrite Hclose' in Hclose. injection Hclose as <-.
    apply discoverAllTools_inv in Hdisc as (p2 & Hloop & [= -> ->]).
    exists (mkSmartProxy (config p) (mkToolCache ∅ (LastSync (toolCache p)) ∅) ∅), w1, p2.
    repeat split; try done; apply Hos.
  - apply Initialize_inv in H as [Hdisc _].
    apply discoverAllTools_inv in Hdisc as (p2 & Hloop & [= -> ->]).
    exists p, w, p2. repeat split; try done; by rewrite Hnew.
Qed.

(** ** Range orders *)

Lemma range_order_NoDup {V} (m : gmap string V) order :
  range_order m order → NoDup order.*1.
Proof.
  intros H. unfold range_order in H. rewrite H. apply NoDup_fst_map_to_list.
Qed.

Lemma range_order_elem {V} (m : gmap string V) order k v :
  range_order m order → (k, v) ∈ order ↔ m !! k = Some v.
Proof.
  intros H. unfold range_order in H. rewrite H. apply elem_of_map_to_list.
Qed.

(** What the loop run from an empty catalog and session map leaves,
    in terms of the configuration it ranged over. *)
Lemma rebuild_facts ctx order (servers : gmap string MCPServer) p0 w0 p2 w' w :
  range_order servers order →
  same_os w w0 →
  Tools (toolCache p0) = ∅ → ServerMap (toolCache p0) = ∅ → clients p0 = ∅ →
  discover_servers ctx order p0 w0 = Returns p2 w' →
  cache_consistent (toolCache p2)
  ∧ (∀ n t, Tools (toolCache p2) !! n = Some t →
       ∃ sc tools t0, servers !! ServerName t = Some sc
         ∧ probe ctx w sc = Offers tools ∧ t0 ∈ tools ∧ Name t0 = n
         ∧ t = set_ServerName (ServerName t) t0)
  ∧ (∀ name sc tools t0, servers !! name = Some sc →
       probe ctx w sc = Offers tools → t0 ∈ tools →
       is_Some (Tools (toolCache p2) !! Name t0))
  ∧ (∀ name sc, servers !! name = Some sc →
       match probe ctx w sc with
       | Offers _ => ∃ c, clients p2 !! name = Some c ∧ session_open c w'
       | _ => clients p2 !! name = None
       end).
Proof.
  intros Hrange Hos HT HS HC Hloop.
  pose proof (discover_servers_catalog _ _ _ _ _ _ Hloop) as (_ & _ & Htc & _).
  rewrite (merge_servers_same_os _ _ _ _ _ Hos) in Htc.
  pose proof (range_order_NoDup _ _ Hrange) as Hnd.
  destruct (discover_servers_clients _ _ _ _ _ _ Hnd Hloop) as (_ & Hcl & _).
  split; [|split; [|split]].
  - rewrite Htc. apply merge_servers_consistent.
    intros n t. by rewrite HT, lookup_empty.
  - intros n t. rewrite Htc.
    intros [H|(s & sc & tools & t0 & Hin & Hp & Ht0 & Hn & ->)]%merge_servers_lookup.
    { by rewrite HT, lookup_empty in H. }
    exists sc, tools, t0. simpl. repeat split; try done.
    by apply (range_order_elem _ _ _ _ Hrange).
  - intros name sc tools t0 Hcfg Hp Ht0. rewrite Htc.
    eapply merge_servers_listed; [|done..].
    by apply (range_order_elem _ _ _ _ Hrange).
  - intros name sc Hcfg.
    apply (range_order_elem _ _ _ _ Hrange) in Hcfg.
    specialize (Hcl _ _ Hcfg). rewrite (probe_same_os _ _ _ _ Hos) in Hcl.
    rewrite HC, lookup_empty in Hcl.
    destruct (probe ctx w sc); [by destruct Hcl..|].
    destruct Hcl as (c & Hc & _ & Hopen). by exists c.
Qed.

Lemma completed_rebuild_dom ctx closing order p w p' w' :
  completed_rebuild ctx closing order p w p' w' →
  dom (Tools (toolCache p')) = dom (ServerMap (toolCache p')).
Proof.
  intros (p0 & w0 & p2 & _ & _ & HT & HS & _ & Hloop & -> & -> & _)%completed_rebuild_inv.
  apply discover_servers_catalog in Hloop as (_ & _ & -> & _).
  apply merge_servers_dom. by rewrite HT, HS.
Qed.

(** ** The environment of a spawned process *)

Lemma cmd_Env_nil env : cmd_Env env = [] ↔ env = ∅.
Proof.
  unfold cmd_Env. split.
  - intros H. apply fmap_nil_inv in H. by apply map_to_list_empty_iff.
  - intros ->. by rewrite map_to_list_empty.
Qed.

Lemma child_environ_overrides parent env :
  env ≠ ∅ → child_environ parent (cmd_Env env) = cmd_Env env.
Proof.
  intros Hne. unfold child_environ.
  destruct (cmd_Env env) eqn:H; [|done].
  by apply cmd_Env_nil in H.
Qed.

(** A successful connect leaves the process with the environment it
    was started with. *)
Lemma NewStdioClient_environ command args env w c w' :
  NewStdioClient command args env w = Returns (Ok c) w' →
  environ (get_proc (cmd c) w') = child_environ (os_Environ w) (cmd_Env env).
Proof.
  pose proof (NewStdioClient_eq (mkMCPServer "" command args env) w) as Heq.
  simpl in Heq. rewrite Heq. unfold fresh_proc. simpl.
  destruct (os_exec w _ _ _) as [prog|]; simpl; [|done].
  set (pr0 := mkProc prog _ true true true [] 0 Scanning).
  destruct (keeps_initialize pr0) as (_ & _ & Henv).
  destruct (initialize pr0) as [[e'|] pr d|pr]; simpl in Henv; [done| |done].
  intros [= <- <-]. simpl. by rewrite get_proc_spawned.
Qed.

(** ** One call on an open session *)

(** A call whose request is taken and whose response line arrives: the
    process has the request and has had the line read, and the call
    returns what [CallTool] makes of the line. *)
Lemma CallTool_answered ctx toolName arguments pr d response :
  handles pr = (true, true, true) → reader pr = Scanning →
  accepts (image pr) (received pr) = Accepted →
  emits (image pr) (received pr ++ [callReq toolName arguments]) (consumed pr)
  = Arrives d (Doc (JObj response)) →
  CallTool ctx toolName arguments pr
  = PReturns
      match index response "error" with
      | Some errorData => Fail (ErrToolError errorData)
      | None => match index response "result" with
                | Some (JObj result) => Ok result
                | _ => Fail ErrInvalidFormat
                end
      end
      (bump_consumed (push_received (callReq toolName arguments) pr)) d.
Proof.
  intros [= Ha Hi Ho] Hrd Hacc Hemit.
  unfold CallTool, pbind, sendRequest, stdin_Write, readResponse, pbind, reader_Scan.
  rewrite Hi, Hacc. simpl. rewrite Hrd, Ho, Hemit. simpl.
  destruct (index response "error"); simpl; [f_equal; lia|].
  destruct (index response "result") as [[| | | | |result]|]; simpl;
    f_equal; lia.
Qed.

Lemma CallTool_arrived ctx toolName arguments pr d l :
  handles pr = (true, true, true) → reader pr = Scanning →
  accepts (image pr) (received pr) = Accepted →
  emits (image pr) (received pr ++ [callReq toolName arguments]) (consumed pr)
  = Arrives d l →
  ∃ r pr', CallTool ctx toolName arguments pr = PReturns r pr' d.
Proof.
  intros [= Ha Hi Ho] Hrd Hacc Hemit.
  unfold CallTool, pbind, sendRequest, stdin_Write, readResponse, pbind, reader_Scan.
  rewrite Hi, Hacc. simpl. rewrite Hrd, Ho, Hemit. simpl.
  replace (d + 0) with d by lia.
  destruct (json_Unmarshal l) as [response|e]; simpl.
  - destruct (index response "error"); simpl.
    { eexists _, _. f_equal. lia. }
    destruct (index response "result") as [[| | | | |result]|]; simpl;
      eexists _, _; f_equal; lia.
  - eexists _, _. f_equal. lia.
Qed.

Lemma CallTool_silent ctx toolName arguments pr :
  handles pr = (true, true, true) → reader pr = Scanning →
  accepts (image pr) (received pr) = Accepted →
  emits (image pr) (received pr ++ [callReq toolName arguments]) (consumed pr) = Never →
  ∃ pr', CallTool ctx toolName arguments pr = PBlocks pr'.
Proof.
  intros [= Ha Hi Ho] Hrd Hacc Hemit.
  unfold CallTool, pbind, sendRequest, stdin_Write, readResponse, pbind, reader_Scan.
  rewrite Hi, Hacc. simpl. rewrite Hrd, Ho, Hemit. by eexists.
Qed.

Lemma ListTools_answered ctx pr d response :
  handles pr = (true, true, true) → reader pr = Scanning →
  accepts (image pr) (received pr) = Accepted →
  emits (image pr) (received pr ++ [listReq]) (consumed pr)
  = Arrives d (Doc (JObj response)) →
  ListTools ctx pr
  = PReturns
      match index response "result" with
      | Some (JObj result) =>
          match index result "tools" with
          | Some (JArr toolsData) => Ok (parseTools toolsData)
          | _ => Fail (ErrNoTools result)
          end
      | _ => Fail (ErrInvalidResponse response)
      end
      (bump_consumed (push_received listReq pr)) d.
Proof.
  intros [= Ha Hi Ho] Hrd Hacc Hemit.
  unfold ListTools, pbind, sendRequest, stdin_Write, readResponse, pbind, reader_Scan.
  rewrite Hi, Hacc. simpl. rewrite Hrd, Ho, Hemit. simpl.
  destruct (index response "result") as [[| | | | |result]|]; simpl;
    try (f_equal; lia).
  destruct (index result "tools") as [[| | | |toolsData|]|]; simpl; f_equal; lia.
Qed.

Lemma initialize_answered pr d l response :
  handles pr = (true, true, true) → reader pr = Scanning →
  accepts (image pr) (received pr) = Accepted →
  emits (image pr) (received pr ++ [initReq]) (consumed pr) = Arrives d l →
  json_Unmarshal l = Ok response →
  initialize pr = PReturns None (bump_consumed (push_received initReq pr)) d.
Proof.
  intros [= Ha Hi Ho] Hrd Hacc Hemit Hjson.
  unfold initialize, pbind, sendRequest, stdin_Write, readResponse, pbind, reader_Scan.
  rewrite Hi, Hacc. simpl. rewrite Hrd, Ho, Hemit. simpl. rewrite Hjson. simpl.
  f_equal. lia.
Qed.



(** A method that keeps the session, run in the world, leaves the
    handles of every process as they were. *)
Lemma on_keeps {A} c (m : PM A) w pid :
  keeps_session m →
  handles (get_proc pid (final_world (on c m w))) = handles (get_proc pid w).
Proof.
  intros Hkeep. unfold on.
  destruct (Hkeep (get_proc (cmd c) w)) as (Hh & _).
  assert (∀ pr', handles pr' = handles (get_proc (cmd c) w) →
                 handles (get_proc pid (set_proc (cmd c) pr' w)) = handles (get_proc pid w))
    as Hset.
  { intros pr' Hpr'. unfold get_proc, set_proc in *. simpl.
    destruct (decide (pid = cmd c)) as [->|Hne].
    - destruct (procs w !! cmd c) as [pr|] eqn:Hpr.
      + by rewrite list_lookup_insert_eq by (by eapply lookup_lt_Some).
      + by rewrite list_insert_ge, Hpr by (by apply lookup_ge_None).
    - by rewrite list_lookup_insert_ne. }
  destruct (m (get_proc (cmd c) w)) as [a pr' d|pr']; simpl in *; by apply Hset.
Qed.

Lemma UseTool_keeps ctx toolName arguments p w pid :
  handles (get_proc pid (final_world (UseTool ctx toolName arguments p w)))
  = handles (get_proc pid w).
Proof.
  unfold UseTool.
  destruct (ServerMap (toolCache p) !! toolName) as [serverName|]; [|done].
  destruct (clients p !! serverName) as [client|]; [|done].
  pose proof (on_keeps client (CallTool ctx toolName arguments) w pid
                (keeps_CallTool ctx toolName arguments)) as H.
  unfold bind.
  destruct (on client (CallTool ctx toolName arguments) w) as [[r|e] w'|w']; done.
Qed.

(** ** Two rebuilds *)

(** The catalog of a completed rebuild is the fold from an empty
    catalog over the servers as they were visited. *)
Lemma completed_rebuild_catalog ctx closing order p w p' w' :
  completed_rebuild ctx closing order p w p' w' →
  same_os w w' ∧ config p' = config p
  ∧ ∃ tc0, Tools tc0 = ∅ ∧ ServerMap tc0 = ∅
           ∧ Tools (toolCache p') = Tools (merge_servers ctx w order tc0)
           ∧ ServerMap (toolCache p') = ServerMap (merge_servers ctx w order tc0).
Proof.
  intros Hdone.
  assert (config p' = config p) as Hcfg.
  { destruct Hdone as [[e H]|[e [Hnew H]]].
    - apply RefreshTools_inv in H as (p1 & w1 & Hreset & Hdisc).
      destruct (RefreshTools_reset_eq closing p w) as (w1' & Hreset' & _).
      rewrite Hreset' in Hreset. injection Hreset as <- <-.
      apply discoverAllTools_inv in Hdisc as (p2 & Hloop & [= -> ->]).
      apply discover_servers_catalog in Hloop as (_ & Hc & _). exact Hc.
    - apply Initialize_inv in H as [Hdisc _].
      apply discoverAllTools_inv in Hdisc as (p2 & Hloop & [= -> ->]).
      apply discover_servers_catalog in Hloop as (_ & Hc & _). exact Hc. }
  apply completed_rebuild_inv in Hdone
    as (p0 & w0 & p2 & Hos & _ & HT & HS & _ & Hloop & HT' & HS' & _).
  apply discover_servers_catalog in Hloop as (Hos' & _ & Htc & _).
  split; [by eapply same_os_trans|]. split; [done|].
  exists (toolCache p0). rewrite HT', HS', Htc.
  by rewrite (merge_servers_same_os _ _ _ _ _ Hos).
Qed.

(** The names some visited server lists. *)
Lemma merge_servers_dom_listed ctx w order tc n :
  Tools tc = ∅ →
  n ∈ dom (Tools (merge_servers ctx w order tc))
  ↔ ∃ s sc ts, (s, sc) ∈ order ∧ probe ctx w sc = Offers ts ∧ n ∈ Name <$> ts.
Proof.
  intros HT. rewrite elem_of_dom. split.
  - intros [t [H|(s & sc & ts & t0 & Hin & Hp & Ht0 & Hn & _)]%merge_servers_lookup].
    { by rewrite HT, lookup_empty in H. }
    exists s, sc, ts. repeat split; [done..|].
    apply list_elem_of_fmap. by exists t0.
  - intros (s & sc & ts & Hin & Hp & (t0 & -> & Ht0)%list_elem_of_fmap).
    by eapply merge_servers_listed.
Qed.

(** A name no visited server lists keeps its entry. *)
Lemma merge_servers_unlisted ctx w order tc n :
  (∀ s sc ts, (s, sc) ∈ order → probe ctx w sc = Offers ts → n ∉ Name <$> ts) →
  Tools (merge_servers ctx w order tc) !! n = Tools tc !! n.
Proof.
  unfold merge_servers. revert tc.
  induction order as [|[s sc] rest IH]; intros tc Hno; simpl; [done|].
  rewrite IH.
  - unfold merge_server. simpl.
    destruct (probe ctx w sc) as [| |ts] eqn:Hp; [done..|].
    apply cache_tools_other. apply (Hno s sc); [by left|done].
  - intros s' sc' ts' Hin. apply (Hno s' sc'). by right.
Qed.

(** A name only one visited server lists has the entry that server's
    listing gives it, wherever the server comes in the order. *)
Lemma merge_servers_unique ctx w order tc tc0 s sc ts n :
  NoDup order.*1 →
  (s, sc) ∈ order → probe ctx w sc = Offers ts → n ∈ Name <$> ts →
  (∀ s' sc' ts', (s', sc') ∈ order → probe ctx w sc' = Offers ts' →
                 n ∈ Name <$> ts' → s' = s) →
  Tools (merge_servers ctx w order tc) !! n
  = Tools (foldl (cache_tool s) tc0 ts) !! n.
Proof.
  unfold merge_servers. revert tc.
  induction order as [|[s1 sc1] rest IH]; intros tc Hnd Hin Hp Hn Huniq;
    [by apply elem_of_nil in Hin|].
  simpl in Hnd. apply NoDup_cons in Hnd as [Hfresh Hnd]. simpl.
  apply elem_of_cons in Hin as [[= <- <-]|Hin].
  - change (foldl (merge_server ctx w) ?a rest) with (merge_servers ctx w rest a).
    rewrite merge_servers_unlisted.
    + unfold merge_server. simpl. rewrite Hp. by apply cache_tools_fresh.
    + intros s' sc' ts' Hin' Hp' Hn'.
      assert (s' = s) as -> by (apply (Huniq s' sc' ts'); [by right|done..]).
      exfalso. apply Hfresh. apply list_elem_of_fmap. by exists (s, sc').
  - apply IH; try done.
    intros s' sc' ts' Hin'. apply (Huniq s' sc'). by right.
Qed.

(** The fold reads the cache before it only through the two mappings. *)
Lemma cache_tools_ext serverName tools tc tc' :
  Tools tc = Tools tc' → ServerMap tc = ServerMap tc' →
  Tools (foldl (cache_tool serverName) tc tools)
  = Tools (foldl (cache_tool serverName) tc' tools)
  ∧ ServerMap (foldl (cache_tool serverName) tc tools)
    = ServerMap (foldl (cache_tool serverName) tc' tools).
Proof.
  revert tc tc'. induction tools as [|t0 tools IH]; intros tc tc' HT HS; simpl; [done|].
  apply IH; simpl; congruence.
Qed.

Lemma merge_servers_ext ctx w order tc tc' :
  Tools tc = Tools tc' → ServerMap tc = ServerMap tc' →
  Tools (merge_servers ctx w order tc) = Tools (merge_servers ctx w order tc')
  ∧ ServerMap (merge_servers ctx w order tc) = ServerMap (merge_servers ctx w order tc').
Proof.
  unfold merge_servers. revert tc tc'.
  induction order as [|entry rest IH]; intros tc tc' HT HS; simpl; [done|].
  apply IH; unfold merge_server;
    destruct (probe ctx w entry.2) as [| |ts]; try done;
    by apply cache_tools_ext.
Qed.

(** With both mappings in step, the owner entry is read off the
    descriptor. *)
Lemma owner_of_descriptor tc n :
  cache_consistent tc → dom (Tools tc) = dom (ServerMap tc) →
  ServerMap tc !! n = ServerName <$> Tools tc !! n.
Proof.
  intros Hcons Hdom.
  destruct (Tools tc !! n) as [t|] eqn:Ht; simpl.
  - by apply Hcons in Ht as [_ ->].
  - apply not_elem_of_dom. rewrite <- Hdom. by apply not_elem_of_dom.
Qed.

Lemma empty_cache_consistent tc : Tools tc = ∅ → cache_consistent tc.
Proof. intros HT n t. by rewrite HT, lookup_empty. Qed.

(** Two folds from empty catalogs over two arrangements of the same
    configuration. *)
Lemma merge_servers_rearranged ctx w (servers : gmap string MCPServer)
    order1 order2 tcA tcB :
  range_order servers order1 → range_order servers order2 →
  Tools tcA = ∅ → ServerMap tcA = ∅ → Tools tcB = ∅ → ServerMap tcB = ∅ →
  let M1 := merge_servers ctx w order1 tcA in
  let M2 := merge_servers ctx w order2 tcB in
  dom (Tools M1) = dom (Tools M2)
  ∧ dom (ServerMap M1) = dom (ServerMap M2)
  ∧ (∀ n,
       (∀ s s' sc sc' ts ts',
          servers !! s = Some sc → servers !! s' = Some sc' →
          probe ctx w sc = Offers ts → probe ctx w sc' = Offers ts' →
          n ∈ Name <$> ts → n ∈ Name <$> ts' → s = s') →
       Tools M1 !! n = Tools M2 !! n ∧ ServerMap M1 !! n = ServerMap M2 !! n)
  ∧ (order1 = order2 → Tools M1 = Tools M2 ∧ ServerMap M1 = ServerMap M2).
Proof.
  intros Hr1 Hr2 HTA HSA HTB HSB M1 M2.
  assert (dom (Tools M1) = dom (ServerMap M1)) as Hd1
    by (apply merge_servers_dom; by rewrite HTA, HSA).
  assert (dom (Tools M2) = dom (ServerMap M2)) as Hd2
    by (apply merge_servers_dom; by rewrite HTB, HSB).
  assert (cache_consistent M1) as Hc1
    by (by apply merge_servers_consistent, empty_cache_consistent).
  assert (cache_consistent M2) as Hc2
    by (by apply merge_servers_consistent, empty_cache_consistent).
  assert (dom (Tools M1) = dom (Tools M2)) as Hdom.
  { apply set_eq. intros n. subst M1 M2.
    rewrite !merge_servers_dom_listed by done.
    split; intros (s & sc & ts & Hin & H); exists s, sc, ts; (split; [|done]).
    - apply (range_order_elem _ _ _ _ Hr2). by apply (range_order_elem _ _ _ _ Hr1).
    - apply (range_order_elem _ _ _ _ Hr1). by apply (range_order_elem _ _ _ _ Hr2). }
  split; [done|]. split; [by rewrite <- Hd1, <- Hd2|]. split.
  - intros n Huniq.
    assert (Tools M1 !! n = Tools M2 !! n) as HT.
    { destruct (Tools M1 !! n) as [t|] eqn:Ht.
      - pose proof Ht as Ht'. subst M1.
        apply merge_servers_lookup in Ht'
          as [H|(s & sc & ts & t0 & Hin & Hp & Ht0 & Hn & _)].
        { by rewrite HTA, lookup_empty in H. }
        assert (n ∈ Name <$> ts) as Hlisted
          by (apply list_elem_of_fmap; by exists t0).
        assert (∀ order, range_order servers order →
                  Tools (merge_servers ctx w order tcA) !! n
                  = Tools (foldl (cache_tool s) tcA ts) !! n) as Heq.
        { intros order Hr.
          apply (merge_servers_unique _ _ _ _ _ s sc); try done.
          - by eapply range_order_NoDup.
          - apply (range_order_elem _ _ _ _ Hr). by apply (range_order_elem _ _ _ _ Hr1).
          - intros s' sc' ts' Hin' Hp' Hn'.
            apply (Huniq s' s sc' sc ts' ts); try done.
            + by apply (range_order_elem _ _ _ _ Hr).
            + by apply (range_order_elem _ _ _ _ Hr1). }
        rewrite <- Ht, (Heq _ Hr1). subst M2.
        destruct (merge_servers_ext ctx w order2 tcB tcA) as [-> _]; [congruence..|].
        by rewrite (Heq _ Hr2).
      - symmetry. apply not_elem_of_dom. rewrite <- Hdom. by apply not_elem_of_dom. }
    split; [done|]. by rewrite !owner_of_descriptor, HT.
  - intros <-. subst M1 M2. apply merge_servers_ext; congruence.
Qed.

(** ** Sessions across a refresh *)

Lemma range_order_cmd closing (cs : gmap string StdioClient) name c :
  range_order cs closing → cs !! name = Some c → cmd c ∈ cmd <$> closing.*2.
Proof.
  intros Hr Hc. apply (range_order_elem _ _ _ _ Hr) in Hc.
  apply list_elem_of_fmap. exists c. split; [done|].
  apply list_elem_of_fmap. by exists (name, c).
Qed.

(** The closing loop over the session map closes every registered
    session. *)
Lemma close_clients_registered closing (cs : gmap string StdioClient) w w1 name c pr :
  range_order cs closing → close_clients closing w = Returns tt w1 →
  cs !! name = Some c → procs w1 !! cmd c = Some pr →
  handles pr = (false, false, false).
Proof.
  intros Hr Hclose Hc Hpr.
  destruct (close_clients_spec closing w) as (w1' & Hclose' & _ & Hprocs).
  rewrite Hclose' in Hclose. injection Hclose as ->.
  rewrite Hprocs in Hpr.
  rewrite decide_True in Hpr by (by eapply range_order_cmd).
  destruct (procs w !! cmd c) as [pr0|]; [|done].
  by injection Hpr as <-.
Qed.

(** When every live process was registered, none is alive after it. *)
Lemma close_clients_all_ended closing p w w1 pid pr :
  range_order (clients p) closing → no_orphans p w →
  close_clients closing w = Returns tt w1 →
  procs w1 !! pid = Some pr → alive pr = false.
Proof.
  intros Hr Horph Hclose Hpr.
  destruct (close_clients_spec closing w) as (w1' & Hclose' & _ & Hprocs).
  rewrite Hclose' in Hclose. injection Hclose as ->.
  rewrite Hprocs in Hpr.
  destruct (procs w !! pid) as [pr0|] eqn:Hpr0; [|done].
  case_decide as Hin; injection Hpr as <-; [done|]. simpl.
  destruct (alive pr0) eqn:Ha; [|done].
  destruct (Horph _ _ Hpr0 Ha) as [name Hname].
  exfalso. apply Hin. by apply (range_order_cmd _ _ _ _ Hr Hname).
Qed.

(** With at least one override, the child of a successful connect has
    the overrides for its whole environment. *)
Lemma NewStdioClient_overrides_only command args env w c w' :
  env ≠ ∅ →
  NewStdioClient command args env w = Returns (Ok c) w' →
  environ (get_proc (cmd c) w') = cmd_Env env.
Proof.
  intros Hne Hconnect.
  rewrite (NewStdioClient_environ _ _ _ _ _ _ Hconnect).
  by apply child_environ_overrides.
Qed.

(** * The claims *)

(** C1: the claim is that a response that does not arrive within the
    caller's deadline makes route fail with the timeout error, with the
    provider's session closed and its tools no longer listed.  The
    request handlers hand route a context that expires 60 ticks after
    the request, and the client never looks at it.  A response that
    arrives 100 ticks after the call, 40 past the deadline, is waited
    for and returned as the result: no error is raised, the session is
    still open and the tool is still listed.  A response that never
    arrives keeps route from returning at all. *)
Theorem route_past_deadline :
  let p := (initialized slow_config).1 in
  let w := (initialized slow_config).2 in
  Deadline demo_ctx = Some 60 ∧ clock w = 0
  ∧ (∃ w', UseTool demo_ctx "slow" [] p w = Returns (Ok [("answer", JNum 4)]) w'
           ∧ clock w' = 100
           ∧ ∃ c, clients p !! "S" = Some c ∧ session_open c w')
  ∧ (¬ ∃ e w', UseTool demo_ctx "slow" [] p w = Returns (Fail e) w')
  ∧ "slow" ∈ Name <$> proxy.ListTools demo_ctx p
  ∧ (∃ w', UseTool demo_ctx "mute" [] p w = Blocks w')
  ∧ "mute" ∈ Name <$> proxy.ListTools demo_ctx p.
Proof.
  cbv zeta. split; [reflexivity|]. split; [vm_compute; reflexivity|].
  split; [|split; [|split; [|split]]].
  - eexists. split; [vm_compute; reflexivity|]. split; [vm_compute; reflexivity|].
    eexists. split; [vm_compute; reflexivity|].
    split; vm_compute; [lia|reflexivity].
  - intros (e & w' & H). vm_compute in H. discriminate.
  - vm_compute. by left.
  - eexists. vm_compute. reflexivity.
  - vm_compute. right. by left.
Qed.

(** C2: the claim is that the child keeps every inherited variable
    that is not overridden.  On the configuration of the quick-start
    guide the connect succeeds and the child's environment holds the
    one override and nothing else: [PATH], which the proxy itself has,
    is gone; with no override the child has the proxy's environment. *)
Theorem connect_overrides_replace_environment :
  (∃ c w', NewStdioClient "npx" brave_args brave_env demo_world = Returns (Ok c) w'
           ∧ environ (get_proc (cmd c) w') = ["BRAVE_API_KEY=your-brave-api-key"]
           ∧ "PATH=/usr/bin" ∈ os_Environ demo_world
           ∧ "PATH=/usr/bin" ∉ environ (get_proc (cmd c) w'))
  ∧ (∃ c w', NewStdioClient "npx" brave_args ∅ demo_world = Returns (Ok c) w'
             ∧ environ (get_proc (cmd c) w') = os_Environ demo_world).
Proof.
  split.
  - eexists _, _. split; [vm_compute; reflexivity|].
    split; [vm_compute; reflexivity|].
    split; [by left|].
    cbn. by intros ?%list_elem_of_singleton.
  - eexists _, _. split; vm_compute; reflexivity.
Qed.

(** C3: after every completed rebuild (initial discovery or refresh)
    the two mappings of the catalog, tool name to descriptor and tool
    name to owning provider, have the same key set. *)
Theorem catalog_key_sets_agree ctx closing order p w p' w' :
  completed_rebuild ctx closing order p w p' w' →
  dom (Tools (toolCache p')) = dom (ServerMap (toolCache p')).
Proof.
  apply completed_rebuild_dom.
Qed.

Lemma catalog_key_sets_agree_witness :
  ∃ p' w', completed_rebuild demo_ctx [] demo_order (New demo_config) demo_world p' w'
           ∧ dom (Tools (toolCache p')) = dom (ServerMap (toolCache p')).
Proof.
  eexists _, _.
  refine ((λ H, conj H (catalog_key_sets_agree _ _ _ _ _ _ _ H)) _).
  left; eexists; vm_compute; reflexivity.
Defined.

(** C4, as stated, fails: a refresh releases the lock between its two
    sections with the emptied catalog and session map installed.  A
    reader that gets the lock there sees no tool, and route fails with
    the not-found error, though the tool is in the catalog before the
    refresh and in the catalog the refresh completes. *)
Lemma refresh_exposes_emptied_catalog :
  let p := (initialized demo_config).1 in
  let w := (initialized demo_config).2 in
  let closing := map_to_list (clients p) in
  let after := refreshed closing demo_order (p, w) in
  ∃ p1 w1,
    RefreshTools_reset closing p w = Returns p1 w1
    ∧ discoverAllTools demo_ctx demo_order p1 w1 = Returns (after.1, None) after.2
    ∧ RefreshTools demo_ctx closing demo_order p w = Returns (after.1, None) after.2
    ∧ proxy.ListTools demo_ctx p1 = []
    ∧ UseTool demo_ctx "alpha" [] p1 w1 = Returns (Fail (ErrToolNotFound "alpha")) w1
    ∧ "alpha" ∈ Name <$> proxy.ListTools demo_ctx p
    ∧ "alpha" ∈ Name <$> proxy.ListTools demo_ctx after.1.
Proof.
  cbv zeta. eexists _, _.
  split; [vm_compute; reflexivity|].
  split; [vm_compute; reflexivity|].
  split; [vm_compute; reflexivity|].
  split; [vm_compute; reflexivity|].
  split; [vm_compute; reflexivity|].
  split; vm_compute; repeat first [by left|right].
Qed.

(** Two refreshes that overlap: the second runs its first section in
    the window the first one leaves between its two sections, then each
    runs its second section.  The sessions the first refresh opens are
    overwritten by those of the second without being closed: their
    processes live on, registered nowhere, and the catalog the second
    completes was not merged from empty. *)
Lemma overlapping_refreshes_orphan_sessions :
  let s0 := initialized demo_config in
  let s1 := emptied s0 in
  let s2 := emptied s1 in
  let s3 := discovered demo_order s2 in
  let s4 := discovered demo_order s3 in
  no_orphans s0.1 s0.2
  ∧ RefreshTools_reset (map_to_list (clients s0.1)) s0.1 s0.2 = Returns s1.1 s1.2
  ∧ RefreshTools_reset (map_to_list (clients s1.1)) s1.1 s1.2 = Returns s2.1 s2.2
  ∧ discoverAllTools demo_ctx demo_order s2.1 s2.2 = Returns (s3.1, None) s3.2
  ∧ discoverAllTools demo_ctx demo_order s3.1 s3.2 = Returns (s4.1, None) s4.2
  ∧ Tools (toolCache s3.1) ≠ ∅
  ∧ map_to_list (clients s3.1) = [("A", mkStdioClient 3); ("B", mkStdioClient 4)]
  ∧ map_to_list (clients s4.1) = [("A", mkStdioClient 6); ("B", mkStdioClient 7)]
  ∧ handles (get_proc 3 s4.2) = (true, true, true)
  ∧ handles (get_proc 4 s4.2) = (true, true, true)
  ∧ ¬ no_orphans s4.1 s4.2.
Proof.
  cbv zeta.
  split.
  { intros pid pr Hpr Halive.
    assert (pid < 3) as Hpid.
    { apply lookup_lt_Some in Hpr. vm_compute in Hpr. lia. }
    destruct pid as [|[|[|pid]]]; [| | |lia].
    - exists "A". vm_compute. reflexivity.
    - exists "B". vm_compute. reflexivity.
    - vm_compute in Hpr. injection Hpr as <-. discriminate. }
  split; [vm_compute; reflexivity|].
  split; [vm_compute; reflexivity|].
  split; [vm_compute; reflexivity|].
  split; [vm_compute; reflexivity|].
  split; [intros H; apply (f_equal (λ m, m !! "alpha")) in H; vm_compute in H;
          discriminate|].
  split; [vm_compute; reflexivity|].
  split; [vm_compute; reflexivity|].
  split; [vm_compute; reflexivity|].
  split; [vm_compute; reflexivity|].
  intros Horph.
  set (s4 := discovered demo_order
               (discovered demo_order (emptied (emptied (initialized demo_config))))) in *.
  assert (procs s4.2 !! 3 = Some (get_proc 3 s4.2)) as Hpr by (vm_compute; reflexivity).
  assert (alive (get_proc 3 s4.2) = true) as Halive by (vm_compute; reflexivity).
  destruct (Horph 3 _ Hpr Halive) as [name Hname].
  apply elem_of_map_to_list in Hname.
  assert (map_to_list (clients s4.1) = [("A", mkStdioClient 6); ("B", mkStdioClient 7)])
    as Hcl by (vm_compute; reflexivity).
  rewrite Hcl in Hname. clear Hpr Halive Hcl Horph. clearbody s4.
  repeat (apply elem_of_cons in Hname as [Hname|Hname]; [discriminate Hname|]).
  by apply elem_of_nil in Hname.
Qed.

(** C4, amended: a refresh runs two critical sections and frees the
    lock between them.  The first closes every registered session and
    installs, in place, an empty session map and two empty catalog
    mappings; it spawns nothing.  When the second follows with no other
    rebuild in between, it merges the descriptors of the providers that
    answer into those mappings, so the completed catalog is the merge
    from empty; it leaves the processes of the first section as they
    are; every session registered before the refresh is closed before
    any new session is opened; and when every live process was a
    registered session before the refresh, so it is after it.  Nothing
    is said here of a refresh that another rebuild overlaps. *)
Theorem refresh_two_sections ctx closing order p w p' e w' :
  range_order (clients p) closing →
  range_order (MCPServers (config p)) order →
  RefreshTools ctx closing order p w = Returns (p', e) w' →
  ∃ p1 w1,
    RefreshTools_reset closing p w = Returns p1 w1
    ∧ discoverAllTools ctx order p1 w1 = Returns (p', e) w'
    ∧ Tools (toolCache p1) = ∅ ∧ ServerMap (toolCache p1) = ∅ ∧ clients p1 = ∅
    ∧ length (procs w1) = length (procs w)
    ∧ (∀ name c pr, clients p !! name = Some c → procs w1 !! cmd c = Some pr →
         handles pr = (false, false, false))
    ∧ Tools (toolCache p') = Tools (merge_servers ctx w order (toolCache p1))
    ∧ ServerMap (toolCache p') = ServerMap (merge_servers ctx w order (toolCache p1))
    ∧ (∀ pid, pid < length (procs w) → procs w' !! pid = procs w1 !! pid)
    ∧ (no_orphans p w → no_orphans p' w').
Proof.
  intros Hrc Hro Hrefresh.
  apply RefreshTools_inv in Hrefresh as (p1 & w1 & Hreset & Hdisc).
  destruct (RefreshTools_reset_eq closing p w) as (w1' & Hreset' & Hclose).
  rewrite Hreset' in Hreset. injection Hreset as <- <-.
  destruct (close_clients_spec closing w) as (w1 & Hclose' & Hos & _).
  rewrite Hclose' in Hclose. injection Hclose as <-.
  pose proof (close_clients_length _ _ _ Hclose') as Hlen.
  eexists _, w1. split; [done|]. split; [done|]. do 3 (split; [done|]).
  split; [done|].
  split; [intros name c pr; by apply (close_clients_registered _ _ _ _ _ _ _ Hrc Hclose')|].
  apply discoverAllTools_inv in Hdisc as (p2 & Hloop & [= -> ->]).
  pose proof (discover_servers_catalog _ _ _ _ _ _ Hloop) as (_ & _ & Htc & new & Hnew).
  rewrite (merge_servers_same_os _ _ _ _ _ Hos) in Htc. simpl.
  split; [by rewrite Htc|]. split; [by rewrite Htc|]. split.
  - intros pid Hpid. rewrite Hnew. apply lookup_app_l. lia.
  - intros Horph pid pr Hpr Halive. simpl.
    pose proof (range_order_NoDup _ _ Hro) as Hnd.
    destruct (discover_servers_clients _ _ _ _ _ _ Hnd Hloop) as (_ & _ & Hreg).
    destruct (decide (length (procs w1) ≤ pid)%nat) as [Hge|Hlt].
    + destruct (Hreg _ _ Hge Hpr Halive) as (name & _ & Hname). by exists name.
    + rewrite Hnew, lookup_app_l in Hpr by lia.
      pose proof (close_clients_all_ended _ _ _ _ _ _ Hrc Horph Hclose' Hpr).
      congruence.
Qed.

Lemma refresh_two_sections_witness :
  let p := (initialized demo_config).1 in
  let w := (initialized demo_config).2 in
  let closing := map_to_list (clients p) in
  let after := refreshed closing demo_order (p, w) in
  ∃ p1 w1,
    RefreshTools_reset closing p w = Returns p1 w1
    ∧ discoverAllTools demo_ctx demo_order p1 w1 = Returns (after.1, None) after.2
    ∧ clients p1 = ∅
    ∧ length (procs w1) = length (procs w)
    ∧ (∀ name c pr, clients p !! name = Some c → procs w1 !! cmd c = Some pr →
         handles pr = (false, false, false)).
Proof.
  cbv zeta.
  destruct (refresh_two_sections demo_ctx
              (map_to_list (clients (initialized demo_config).1)) demo_order
              (initialized demo_config).1 (initialized demo_config).2
              (refreshed (map_to_list (clients (initialized demo_config).1)) demo_order
                 ((initialized demo_config).1, (initialized demo_config).2)).1
              None
              (refreshed (map_to_list (clients (initialized demo_config).1)) demo_order
                 ((initialized demo_config).1, (initialized demo_config).2)).2)
    as (p1 & w1 & H1 & H2 & _ & _ & H3 & H4 & H5 & _).
  - unfold range_order. reflexivity.
  - unfold range_order, demo_order. vm_compute. reflexivity.
  - vm_compute. reflexivity.
  - exists p1, w1. exact (conj H1 (conj H2 (conj H3 (conj H4 H5)))).
Defined.

(** C5: for a tool name absent from the owner mapping, route fails
    with the not-found error and leaves the world as it was: no process
    is spawned or touched, no request line is written. *)
Theorem route_unknown_tool ctx toolName arguments p w :
  ServerMap (toolCache p) !! toolName = None →
  UseTool ctx toolName arguments p w = Returns (Fail (ErrToolNotFound toolName)) w.
Proof.
  intros H. unfold UseTool. by rewrite H.
Qed.

Lemma route_unknown_tool_witness :
  UseTool demo_ctx "gamma" [] (New demo_config) demo_world
  = Returns (Fail (ErrToolNotFound "gamma")) demo_world.
Proof.
  apply (route_unknown_tool demo_ctx "gamma" [] (New demo_config) demo_world).
  reflexivity.
Defined.




(** C7: the claim is that a response line with an error field makes
    the call fail with the tool error wrapping the payload and leaves
    the session usable for the next call, and that a response without
    an error field has its result field returned.  So it is when the
    line fits the client's scanner.  When the response comes as a line
    of 64 KiB or more, the call fails with the read error: the error
    payload is lost, or the result is not returned; both pipes are
    still open and the process lives, yet the calls that follow fail as
    well, and the line the provider answers them with is never read. *)
Theorem invoke_error_response_over_buffer :
  let payload := JObj [("code", JNum (-32000)); ("message", JStr "no such file")] in
  let response := [("jsonrpc", JStr "2.0"); ("id", JNum 3); ("error", payload)] in
  let contents := [("content", JArr [JObj [("type", JStr "text"); ("text", JStr "...")]])] in
  let success := [("jsonrpc", JStr "2.0"); ("id", JNum 3); ("result", JObj contents)] in
  let answer := result_reply 0 [("answer", JNum 7)] in
  let session := λ first, mkProc (scripted [first; answer]) [] true true true [] 0 Scanning in
  index response "error" = Some payload
  ∧ index success "error" = None ∧ index success "result" = Some (JObj contents)
  ∧ (∃ pr1, CallTool demo_ctx "read_file" [] (session (Arrives 0 (Doc (JObj response))))
            = PReturns (Fail (ErrToolError payload)) pr1 0
            ∧ ∃ pr2, CallTool demo_ctx "read_file" [] pr1
                     = PReturns (Ok [("answer", JNum 7)]) pr2 0)
  ∧ (∃ pr1, CallTool demo_ctx "read_file" [] (session (Arrives 0 (Doc (JObj success))))
            = PReturns (Ok contents) pr1 0)
  ∧ (∃ pr1, CallTool demo_ctx "read_file" []
              (session (Overlong 0 (Doc (JObj success)) Garbage))
            = PReturns (Fail ErrReadResponse) pr1 0)
  ∧ ∃ pr1, CallTool demo_ctx "read_file" []
             (session (Overlong 0 (Doc (JObj response)) Garbage))
           = PReturns (Fail ErrReadResponse) pr1 0
           ∧ handles pr1 = (true, true, true)
           ∧ ∃ e2 pr2, CallTool demo_ctx "read_file" [] pr1 = PReturns (Fail e2) pr2 0
               ∧ ∃ e3 pr3, CallTool demo_ctx "read_file" [] pr2 = PReturns (Fail e3) pr3 0
                   ∧ handles pr3 = (true, true, true)
                   ∧ length (received pr3) = 3 ∧ consumed pr3 = 0.
Proof.
  cbv zeta. split; [reflexivity|]. split; [reflexivity|]. split; [reflexivity|].
  split; [|split; [|split]].
  - eexists. split; [vm_compute; reflexivity|]. eexists. vm_compute. reflexivity.
  - eexists. vm_compute. reflexivity.
  - eexists. vm_compute. reflexivity.
  - eexists. split; [vm_compute; reflexivity|]. split; [reflexivity|].
    eexists _, _. split; [vm_compute; reflexivity|].
    eexists _, _. split; [vm_compute; reflexivity|]. by repeat split.
Qed.

(** C8, as stated, fails: with two providers that offer a tool of the
    same name, two rebuilds of the same configuration, against the same
    programs, that visit the providers in different orders leave the
    tool owned by different providers. *)
Lemma rebuild_twice_different_owner :
  let order1 := map_to_list (MCPServers clash_config) in
  let order2 := reverse order1 in
  ∃ p1 w1 p2 w2,
    range_order (MCPServers clash_config) order1
    ∧ range_order (MCPServers clash_config) order2
    ∧ RefreshTools demo_ctx [] order1 (New clash_config) demo_world
      = Returns (p1, None) w1
    ∧ RefreshTools demo_ctx (map_to_list (clients p1)) order2 p1 w1
      = Returns (p2, None) w2
    ∧ ServerName <$> Tools (toolCache p1) !! "alpha" = Some "A"
    ∧ ServerName <$> Tools (toolCache p2) !! "alpha" = Some "C"
    ∧ Tools (toolCache p1) ≠ Tools (toolCache p2).
Proof.
  cbv zeta. eexists _, _, _, _.
  split; [unfold range_order; reflexivity|].
  split; [unfold range_order; apply reverse_Permutation|].
  split; [vm_compute; reflexivity|].
  split; [vm_compute; reflexivity|].
  split; [vm_compute; reflexivity|].
  split; [vm_compute; reflexivity|].
  intros H. apply (f_equal (λ m, ServerName <$> m !! "alpha")) in H.
  vm_compute in H. discriminate.
Qed.

(** C8, amended: two rebuilds of an unchanged configuration against
    unchanged programs yield catalogs with the same key set.  The
    entries of a tool name that at most one provider lists are the same
    both times, and so is the whole catalog when both rebuilds visit
    the providers in the same order. *)
Theorem rebuild_twice ctx1 ctx2 closing1 closing2 order1 order2 p w p1 e1 w1 p2 e2 w2 :
  range_order (MCPServers (config p)) order1 →
  range_order (MCPServers (config p)) order2 →
  RefreshTools ctx1 closing1 order1 p w = Returns (p1, e1) w1 →
  RefreshTools ctx2 closing2 order2 p1 w1 = Returns (p2, e2) w2 →
  dom (Tools (toolCache p1)) = dom (Tools (toolCache p2))
  ∧ dom (ServerMap (toolCache p1)) = dom (ServerMap (toolCache p2))
  ∧ (∀ n,
       (∀ s s' sc sc' ts ts',
          MCPServers (config p) !! s = Some sc →
          MCPServers (config p) !! s' = Some sc' →
          probe ctx1 w sc = Offers ts → probe ctx1 w sc' = Offers ts' →
          n ∈ Name <$> ts → n ∈ Name <$> ts' → s = s') →
       Tools (toolCache p1) !! n = Tools (toolCache p2) !! n
       ∧ ServerMap (toolCache p1) !! n = ServerMap (toolCache p2) !! n)
  ∧ (order1 = order2 →
     Tools (toolCache p1) = Tools (toolCache p2)
     ∧ ServerMap (toolCache p1) = ServerMap (toolCache p2)).
Proof.
  intros Hr1 Hr2 H1 H2.
  assert (completed_rebuild ctx1 closing1 order1 p w p1 w1) as Hd1
    by (left; by exists e1).
  assert (completed_rebuild ctx2 closing2 order2 p1 w1 p2 w2) as Hd2
    by (left; by exists e2).
  apply completed_rebuild_catalog in Hd1
    as (Hos1 & Hcfg1 & tcA & HTA & HSA & HT1 & HS1).
  apply completed_rebuild_catalog in Hd2
    as (_ & _ & tcB & HTB & HSB & HT2 & HS2).
  rewrite (merge_servers_same_os _ _ _ _ _ Hos1) in HT2, HS2.
  change (merge_servers ctx2 w order2 tcB)
    with (merge_servers ctx1 w order2 tcB) in HT2, HS2.
  rewrite HT1, HS1, HT2, HS2.
  by apply (merge_servers_rearranged ctx1 w (MCPServers (config p))).
Qed.

Lemma rebuild_twice_witness :
  let order := map_to_list (MCPServers demo_config) in
  let first := refreshed [] order (New demo_config, demo_world) in
  let second := refreshed (map_to_list (clients first.1)) (reverse order) first in
  dom (Tools (toolCache first.1)) = dom (Tools (toolCache second.1))
  ∧ dom (ServerMap (toolCache first.1)) = dom (ServerMap (toolCache second.1)).
Proof.
  cbv zeta.
  set (order := map_to_list (MCPServers demo_config)).
  set (first := refreshed [] order (New demo_config, demo_world)).
  set (second := refreshed (map_to_list (clients first.1)) (reverse order) first).
  destruct (rebuild_twice demo_ctx demo_ctx [] (map_to_list (clients first.1))
              order (reverse order) (New demo_config) demo_world
              first.1 None first.2 second.1 None second.2)
    as (Ha & Hb & _).
  - unfold range_order. reflexivity.
  - unfold range_order. apply reverse_Permutation.
  - vm_compute. reflexivity.
  - vm_compute. reflexivity.
  - by split.
Defined.

(** C9: when the process is spawned and the connect attempt then fails
    (the handshake request cannot be written, or its response cannot be
    read or parsed), the error is returned with the spawned process
    ended and both its pipes closed; no other process was spawned. *)
Theorem failed_connect_ends_process command args env w prog e w' :
  os_exec w command args (child_environ (os_Environ w) (cmd_Env env)) = Some prog →
  NewStdioClient command args env w = Returns (Fail e) w' →
  ∃ pr, procs w' = procs w ++ [pr] ∧ image pr = prog
        ∧ handles pr = (false, false, false).
Proof.
  intros Hexec.
  pose proof (NewStdioClient_eq (mkMCPServer "" command args env) w) as Heq.
  simpl in Heq. rewrite Heq. unfold fresh_proc. simpl. rewrite Hexec. simpl.
  set (pr0 := mkProc prog _ true true true [] 0 Scanning).
  destruct (keeps_initialize pr0) as (_ & Himg & _).
  destruct (initialize pr0) as [[e'|] pr d|pr]; simpl in Himg; [|done..].
  intros [= <- <-]. exists (closed pr). by repeat split.
Qed.

Lemma failed_connect_ends_process_witness :
  ∃ w' pr,
    NewStdioClient "broken-server" [] ∅ demo_world = Returns (Fail ErrUnmarshal) w'
    ∧ procs w' = procs demo_world ++ [pr]
    ∧ image pr = scripted [Arrives 0 Garbage]
    ∧ handles pr = (false, false, false).
Proof.
  eexists _.
  refine ((λ H, match failed_connect_ends_process "broken-server" [] ∅ demo_world
                        (scripted [Arrives 0 Garbage]) ErrUnmarshal _ eq_refl H
                with ex_intro _ pr Hpr => ex_intro _ pr (conj H Hpr) end) _).
  vm_compute. reflexivity.
Defined.

(** C10: after every completed rebuild, a descriptor in the catalog
    names as its owner the provider the owner mapping holds for that
    tool name (and every name of the owner mapping has a descriptor),
    and that provider is a configured one whose capability listing
    supplied the descriptor. *)
Theorem catalog_owner_consistent ctx closing order p w p' w' n :
  range_order (MCPServers (config p)) order →
  completed_rebuild ctx closing order p w p' w' →
  (∀ t, Tools (toolCache p') !! n = Some t →
     ServerMap (toolCache p') !! n = Some (ServerName t)
     ∧ ∃ sc tools t0, MCPServers (config p) !! ServerName t = Some sc
         ∧ probe ctx w sc = Offers tools ∧ t0 ∈ tools ∧ Name t0 = n
         ∧ t = set_ServerName (ServerName t) t0)
  ∧ (∀ owner, ServerMap (toolCache p') !! n = Some owner →
       ∃ t, Tools (toolCache p') !! n = Some t ∧ ServerName t = owner).
Proof.
  intros Hrange Hdone.
  pose proof (completed_rebuild_dom _ _ _ _ _ _ _ Hdone) as Hdom.
  apply completed_rebuild_inv in Hdone
    as (p0 & w0 & p2 & Hos & Hcfg & HT & HS & HC & Hloop & HT' & HS' & _).
  rewrite <- Hcfg in Hrange.
  rewrite HT', HS' in *.
  destruct (rebuild_facts _ _ _ _ _ _ _ w Hrange Hos HT HS HC Hloop)
    as (Hcons & Hprov & _). rewrite Hcfg in Hprov.
  split.
  - intros t Ht. split; [by apply Hcons|by apply Hprov].
  - intros owner Howner.
    assert (n ∈ dom (Tools (toolCache p2))) as [t Ht]%elem_of_dom.
    { rewrite Hdom. apply elem_of_dom. by eexists. }
    exists t. split; [done|].
    apply Hcons in Ht as [_ Ht]. congruence.
Qed.

Lemma catalog_owner_consistent_witness :
  ∃ p' w',
    completed_rebuild demo_ctx [] demo_order (New demo_config) demo_world p' w'
    ∧ (∀ t, Tools (toolCache p') !! "alpha" = Some t →
         ServerMap (toolCache p') !! "alpha" = Some (ServerName t)
         ∧ ∃ sc tools t0, MCPServers demo_config !! ServerName t = Some sc
             ∧ probe demo_ctx demo_world sc = Offers tools ∧ t0 ∈ tools
             ∧ Name t0 = "alpha" ∧ t = set_ServerName (ServerName t) t0)
    ∧ (∀ owner, ServerMap (toolCache p') !! "alpha" = Some owner →
         ∃ t, Tools (toolCache p') !! "alpha" = Some t ∧ ServerName t = owner).
Proof.
  eexists _, _.
  refine ((λ H, conj H
             (catalog_owner_consistent demo_ctx [] demo_order (New demo_config)
                demo_world _ _ "alpha" _ H)) _).
  - unfold range_order, demo_order. reflexivity.
  - left; eexists; vm_compute; reflexivity.
Defined.

(** * Further properties of the code *)

(** ** Package llm *)

Lemma toolMap_of_snoc availableTools tool :
  toolMap_of (availableTools ++ [tool])
  = <[Name tool := tool]> (toolMap_of availableTools).
Proof. unfold toolMap_of. by rewrite foldl_app. Qed.

(** What the map holds under a name is one of the tools, and bears
    that name. *)
Lemma toolMap_of_lookup availableTools name tool :
  toolMap_of availableTools !! name = Some tool →
  tool ∈ availableTools ∧ Name tool = name.
Proof.
  induction availableTools as [|t0 ts IH] using rev_ind.
  - unfold toolMap_of. simpl. by rewrite lookup_empty.
  - rewrite toolMap_of_snoc.
    destruct (decide (Name t0 = name)) as [<-|Hne].
    + rewrite lookup_insert_eq. intros [= <-].
      split; [apply elem_of_app; right; by left|done].
    + rewrite lookup_insert_ne by done. intros [Hin Hn]%IH.
      split; [apply elem_of_app; by left|done].
Qed.

Lemma toolMap_of_known availableTools name :
  is_Some (toolMap_of availableTools !! name) ↔ name ∈ Name <$> availableTools.
Proof.
  induction availableTools as [|t0 ts IH] using rev_ind.
  - unfold toolMap_of. simpl. rewrite lookup_empty. split.
    + by intros [? ?].
    + by intros ?%elem_of_nil.
  - rewrite toolMap_of_snoc, fmap_app, elem_of_app. simpl.
    destruct (decide (Name t0 = name)) as [<-|Hne].
    + rewrite lookup_insert_eq. split; [intros _; right; by left|by eauto].
    + rewrite lookup_insert_ne, IH by done. split; [by left|].
      intros [H|H%list_elem_of_singleton]; [done|congruence].
Qed.

(** The appending loop is a partial map over the names. *)
Lemma select_loop (toolMap : gmap string Tool) names acc :
  foldl (fun selectedTools name =>
           match toolMap !! name with
           | Some tool => selectedTools ++ [tool]
           | None => selectedTools
           end) acc names
  = acc ++ omap (toolMap !!.) names.
Proof.
  revert acc. induction names as [|n names IH]; intros acc; simpl.
  - by rewrite app_nil_r.
  - rewrite IH. destruct (toolMap !! n); simpl; [|done].
    by rewrite <- app_assoc.
Qed.

Lemma filterToolsByNames_eq selectedNames availableTools :
  filterToolsByNames selectedNames availableTools
  = omap (toolMap_of availableTools !!.) (take maxTools selectedNames).
Proof.
  unfold filterToolsByNames. rewrite select_loop. simpl.
  case_decide as Hlen; [done|].
  by rewrite take_ge by lia.
Qed.

Lemma length_omap_le {A B} (f : A → option B) (l : list A) :
  (length (omap f l) ≤ length l)%nat.
Proof.
  induction l as [|x l IH]; [done|].
  change (omap f (x :: l))
    with (match f x with Some y => y :: omap f l | None => omap f l end).
  destruct (f x); simpl; lia.
Qed.

(** X1: [filterToolsByNames] returns at most five tools, and no more
    tools than names, whatever the names and the tools. *)
Theorem filterToolsByNames_at_most_five selectedNames availableTools :
  (length (filterToolsByNames selectedNames availableTools) ≤ 5)%nat
  ∧ (length (filterToolsByNames selectedNames availableTools)
     ≤ length selectedNames)%nat.
Proof.
  rewrite filterToolsByNames_eq.
  pose proof (length_omap_le (toolMap_of availableTools !!.)
                (take maxTools selectedNames)) as H.
  rewrite length_take in H. unfold maxTools in *. lia.
Qed.

(** X2: every tool [filterToolsByNames] returns is one of the
    available tools, and its name is among the first five selected
    names. *)
Theorem filterToolsByNames_available selectedNames availableTools tool :
  tool ∈ filterToolsByNames selectedNames availableTools →
  tool ∈ availableTools ∧ Name tool ∈ take 5 selectedNames.
Proof.
  rewrite filterToolsByNames_eq.
  intros (name & Hname & Hlook)%list_elem_of_omap.
  apply toolMap_of_lookup in Hlook as [Hin <-]. done.
Qed.

Lemma filterToolsByNames_available_witness :
  mkTool "read" "d" JNull "fs" ∈ [mkTool "read" "d" JNull "fs"]
  ∧ Name (mkTool "read" "d" JNull "fs") ∈ take 5 ["write"; "read"].
Proof.
  apply (filterToolsByNames_available ["write"; "read"]
           [mkTool "read" "d" JNull "fs"]).
  vm_compute. by left.
Defined.

Lemma filterToolsByNames_names_eq selectedNames availableTools :
  Name <$> filterToolsByNames selectedNames availableTools
  = filter (λ name, name ∈ Name <$> availableTools) (take 5 selectedNames).
Proof.
  rewrite filterToolsByNames_eq. unfold maxTools.
  induction (take 5 selectedNames) as [|n names IH]; [done|].
  rewrite filter_cons.
  change (omap (toolMap_of availableTools !!.) (n :: names))
    with (match toolMap_of availableTools !! n with
          | Some y => y :: omap (toolMap_of availableTools !!.) names
          | None => omap (toolMap_of availableTools !!.) names
          end).
  destruct (toolMap_of availableTools !! n) as [tool|] eqn:Hlook.
  - rewrite decide_True.
    + rewrite fmap_cons, IH. f_equal. by apply toolMap_of_lookup in Hlook as [_ ->].
    + apply toolMap_of_known. by eexists.
  - rewrite decide_False; [done|].
    intros H%toolMap_of_known. rewrite Hlook in H. by destruct H.
Qed.

(** X3: the names of the returned tools are the first five selected
    names without those no available tool bears, in the order of the
    selection and with its repetitions. *)
Theorem filterToolsByNames_names selectedNames availableTools :
  Name <$> filterToolsByNames selectedNames availableTools
  = filter (λ name, name ∈ Name <$> availableTools) (take 5 selectedNames).
Proof.
  apply filterToolsByNames_names_eq.
Qed.

(** X4: the cut to five names comes before unknown names are dropped:
    a name that is not among the first five selected names is not
    returned, even when fewer than five tools are. *)
Theorem filterToolsByNames_cut_first selectedNames availableTools name :
  name ∉ take 5 selectedNames →
  name ∉ Name <$> filterToolsByNames selectedNames availableTools.
Proof.
  intros Hout Hin. rewrite filterToolsByNames_names_eq in Hin.
  apply list_elem_of_filter in Hin as [_ Hin]. done.
Qed.

Lemma filterToolsByNames_cut_first_witness :
  "read" ∉ Name <$> filterToolsByNames ["a"; "b"; "c"; "d"; "e"; "read"]
                       [mkTool "read" "d" JNull "fs"].
Proof.
  apply filterToolsByNames_cut_first.
  vm_compute. intros H.
  repeat (apply elem_of_cons in H as [H|H]; [discriminate|]).
  by apply elem_of_nil in H.
Defined.

(** ** Package mcp *)

(** X5: [Close] never blocks and takes no time; whatever the state of
    the session it leaves the process ended and both pipes closed, and
    a second [Close] changes nothing. *)
Theorem Close_idempotent pr :
  (∃ err, Close pr = PReturns err (closed pr) 0)
  ∧ handles (closed pr) = (false, false, false)
  ∧ (∃ err, Close (closed pr) = PReturns err (closed pr) 0)
  ∧ received (closed pr) = received pr ∧ consumed (closed pr) = consumed pr.
Proof.
  split; [apply Close_returns|]. split; [done|]. split; [|done].
  destruct (Close_returns (closed pr)) as [err H]. exists err.
  by rewrite closed_closed in H.
Qed.

Lemma sendRequest_closed req pr :
  stdin_open pr = false →
  sendRequest req pr = PReturns (Some ErrWrite) pr 0.
Proof.
  intros H. unfold sendRequest, stdin_Write. by rewrite H.
Qed.

Lemma closed_session_fails_fast_CallTool ctx toolName arguments pr :
  stdin_open pr = false →
  CallTool ctx toolName arguments pr = PReturns (Fail ErrWrite) pr 0.
Proof.
  intros H. unfold CallTool, pbind. by rewrite (sendRequest_closed _ _ H).
Qed.

(** X6: on a session whose input pipe the client has closed, every
    request fails at the write: [initialize], [ListTools] and
    [CallTool] return the write error at once, without reading and
    without changing the session. *)
Theorem closed_session_fails_fast ctx toolName arguments pr :
  stdin_open pr = false →
  initialize pr = PReturns (Some ErrWrite) pr 0
  ∧ ListTools ctx pr = PReturns (Fail ErrWrite) pr 0
  ∧ CallTool ctx toolName arguments pr = PReturns (Fail ErrWrite) pr 0.
Proof.
  intros H. unfold initialize, ListTools, CallTool, pbind.
  by rewrite !(sendRequest_closed _ _ H).
Qed.

Lemma closed_session_fails_fast_witness :
  let pr := closed (mkProc (scripted [handshake_reply]) [] true true true [] 0 Scanning) in
  initialize pr = PReturns (Some ErrWrite) pr 0
  ∧ ListTools demo_ctx pr = PReturns (Fail ErrWrite) pr 0
  ∧ CallTool demo_ctx "alpha" [] pr = PReturns (Fail ErrWrite) pr 0.
Proof.
  cbv zeta.
  apply (closed_session_fails_fast demo_ctx "alpha" []
           (closed (mkProc (scripted [handshake_reply]) [] true true true [] 0 Scanning))).
  reflexivity.
Defined.

(** X7: on an open session whose scanner has met no error, whose
    request is taken and whose response is a line of less than 64 KiB
    that is a JSON object, [ListTools] returns the tools parsed from
    the array under [result.tools]; a response whose [result] is
    missing or no object fails with the invalid-response error carrying
    the response, one whose [result] has no [tools] array fails with
    the no-tools error carrying the result.  [ListTools] itself leaves
    the session open and the scanner reading in each case. *)
Theorem ListTools_response ctx pr d response :
  handles pr = (true, true, true) → reader pr = Scanning →
  accepts (image pr) (received pr) = Accepted →
  emits (image pr) (received pr ++ [listReq]) (consumed pr)
  = Arrives d (Doc (JObj response)) →
  ∃ pr',
    handles pr' = (true, true, true) ∧ reader pr' = Scanning
    ∧ (∀ result toolsData,
         index response "result" = Some (JObj result) →
         index result "tools" = Some (JArr toolsData) →
         ListTools ctx pr = PReturns (Ok (parseTools toolsData)) pr' d)
    ∧ (∀ result,
         index response "result" = Some (JObj result) →
         (∀ toolsData, index result "tools" ≠ Some (JArr toolsData)) →
         ListTools ctx pr = PReturns (Fail (ErrNoTools result)) pr' d)
    ∧ ((∀ result, index response "result" ≠ Some (JObj result)) →
       ListTools ctx pr = PReturns (Fail (ErrInvalidResponse response)) pr' d).
Proof.
  intros Hh Hrd Hacc Hemit.
  pose proof (ListTools_answered ctx _ _ _ Hh Hrd Hacc Hemit) as Hcall.
  exists (bump_consumed (push_received listReq pr)).
  split; [done|]. split; [done|]. split; [|split].
  - intros result toolsData Hr Ht. by rewrite Hcall, Hr, Ht.
  - intros result Hr Ht. rewrite Hcall, Hr.
    destruct (index result "tools") as [[| | | |toolsData|]|]; try done.
    by destruct (Ht toolsData).
  - intros Hr. rewrite Hcall.
    destruct (index response "result") as [[| | | | |result]|]; try done.
    by destruct (Hr result).
Qed.

Lemma ListTools_response_witness :
  let response := [("jsonrpc", JStr "2.0"); ("id", JNum 2); ("result", JObj [])] in
  let pr := mkProc (scripted [reply 3 response]) [] true true true [] 0 Scanning in
  ∃ pr', handles pr' = (true, true, true) ∧ reader pr' = Scanning
         ∧ ListTools demo_ctx pr = PReturns (Fail (ErrNoTools [])) pr' 3.
Proof.
  cbv zeta.
  destruct (ListTools_response demo_ctx
              (mkProc (scripted [reply 3 [("jsonrpc", JStr "2.0"); ("id", JNum 2);
                                          ("result", JObj [])]])
                      [] true true true [] 0 Scanning)
              3 [("jsonrpc", JStr "2.0"); ("id", JNum 2); ("result", JObj [])]
              eq_refl eq_refl eq_refl eq_refl)
    as (pr' & Hopen & Hrd & _ & Hnotools & _).
  exists pr'. split; [done|]. split; [done|]. by apply Hnotools.
Defined.

(** X8: the tools [ListTools] parses are exactly the descriptors of
    the JSON objects of the array, in their order: an element that is
    no object is skipped, a missing or non-string [name] or
    [description] gives the empty string, and no tool bears a server
    name yet. *)
Theorem parseTools_objects toolsData :
  (∀ tool, tool ∈ parseTools toolsData ↔
     ∃ toolMap, JObj toolMap ∈ toolsData
       ∧ tool = mkTool (getString toolMap "name") (getString toolMap "description")
                       (default JNull (index toolMap "inputSchema")) "")
  ∧ (length (parseTools toolsData) ≤ length toolsData)%nat
  ∧ (∀ more, parseTools (toolsData ++ more) = parseTools toolsData ++ parseTools more).
Proof.
  split; [|split].
  - intros tool. induction toolsData as [|v rest IH]; simpl.
    + split; [by intros ?%elem_of_nil|]. by intros (? & ?%elem_of_nil & _).
    + destruct v as [| | | | |toolMap];
        try (rewrite IH; split; intros (m & Hin & Heq); exists m;
             (split; [|done]);
             [by right|by apply elem_of_cons in Hin as [?|?]]).
      rewrite elem_of_cons, IH. split.
      * intros [->|(m & Hin & Heq)]; [exists toolMap; split; [by left|done]|].
        exists m. split; [by right|done].
      * intros (m & Hin & Heq). apply elem_of_cons in Hin as [[= <-]|Hin]; [by left|].
        right. by exists m.
  - induction toolsData as [|v rest IH]; simpl; [done|].
    destruct v; simpl; lia.
  - intros more. induction toolsData as [|v rest IH]; simpl; [done|].
    destruct v; by rewrite ?IH.
Qed.

Lemma json_Unmarshal_error l e : json_Unmarshal l = Fail e → e = ErrUnmarshal.
Proof. destruct l as [|[| | | | |fields]]; simpl; congruence. Qed.

Lemma call_one_exchange_CallTool ctx toolName arguments pr :
  one_exchange (callReq toolName arguments) pr
    (pfinal (CallTool ctx toolName arguments pr)).
Proof.
  unfold one_exchange, CallTool, pbind, sendRequest, stdin_Write, readResponse,
    pbind, reader_Scan.
  destruct (negb (stdin_open pr)); simpl; [by left|].
  destruct (accepts (image pr) (received pr)); simpl; [|by left..].
  destruct (reader pr) as [|l|]; simpl; [| |right; by auto].
  - destruct (negb (stdout_open pr)); simpl; [right; by auto|].
    destruct (emits (image pr) (received pr ++ [callReq toolName arguments])
                (consumed pr)) as [d l|d l head| |]; simpl; [|right; by auto..].
    destruct (json_Unmarshal l) as [response|e]; simpl; [|right; by auto].
    destruct (index response "error"); simpl; [right; by auto|].
    destruct (index response "result") as [[| | | | |result]|]; right; by auto.
  - destruct (json_Unmarshal l) as [response|e]; simpl; [|right; by auto].
    destruct (index response "error"); simpl; [right; by auto|].
    destruct (index response "result") as [[| | | | |result]|]; right; by auto.
Qed.

Lemma call_one_exchange_ListTools ctx pr :
  one_exchange listReq pr (pfinal (ListTools ctx pr)).
Proof.
  unfold one_exchange, ListTools, pbind, sendRequest, stdin_Write, readResponse,
    pbind, reader_Scan.
  destruct (negb (stdin_open pr)); simpl; [by left|].
  destruct (accepts (image pr) (received pr)); simpl; [|by left..].
  destruct (reader pr) as [|l|]; simpl; [| |right; by auto].
  - destruct (negb (stdout_open pr)); simpl; [right; by auto|].
    destruct (emits (image pr) (received pr ++ [listReq]) (consumed pr))
      as [d l|d l head| |]; simpl; [|right; by auto..].
    destruct (json_Unmarshal l) as [response|e]; simpl; [|right; by auto].
    destruct (index response "result") as [[| | | | |result]|]; simpl;
      try (right; by auto).
    destruct (index result "tools") as [[| | | |toolsData|]|]; right; by auto.
  - destruct (json_Unmarshal l) as [response|e]; simpl; [|right; by auto].
    destruct (index response "result") as [[| | | | |result]|]; simpl;
      try (right; by auto).
    destruct (index result "tools") as [[| | | |toolsData|]|]; right; by auto.
Qed.

(** X9: whatever the provider does, one [CallTool] or one [ListTools]
    writes at most one request line, its own, and reads at most one
    line, and only after its request was written: no request is sent
    twice and no further line is read. *)
Theorem call_one_exchange ctx toolName arguments pr :
  one_exchange (callReq toolName arguments) pr
    (pfinal (CallTool ctx toolName arguments pr))
  ∧ one_exchange listReq pr (pfinal (ListTools ctx pr)).
Proof.
  split; [apply call_one_exchange_CallTool|apply call_one_exchange_ListTools].
Qed.

(** X10: a connect succeeds as soon as the program starts, takes the
    initialize request and answers with one line of less than 64 KiB
    that is a JSON object or null; what the object holds is not looked
    at, an error object does as well as a result.  The new session is
    open, its scanner has met no error, it has been sent the initialize
    request and nothing else, and has had exactly one line read. *)
Theorem connect_handshake command args env w prog d l response :
  os_exec w command args (child_environ (os_Environ w) (cmd_Env env)) = Some prog →
  accepts prog [] = Accepted →
  emits prog [initReq] 0 = Arrives d l →
  json_Unmarshal l = Ok response →
  NewStdioClient command args env w
  = Returns (Ok (mkStdioClient (length (procs w))))
      (spawned w (mkProc prog (child_environ (os_Environ w) (cmd_Env env))
                         true true true [initReq] 1 Scanning) d).
Proof.
  intros Hexec Hacc Hemit Hjson.
  pose proof (NewStdioClient_eq (mkMCPServer "" command args env) w) as Heq.
  simpl in Heq. rewrite Heq. unfold fresh_proc. simpl. rewrite Hexec. simpl.
  by rewrite (initialize_answered _ d l response).
Qed.

Lemma connect_handshake_witness :
  let refusing := scripted [reply 2 [("jsonrpc", JStr "2.0"); ("id", JNum 1);
                                     ("error", JObj [("code", JNum (-32600))])]] in
  let w := mkWorld [] (λ _ _ _, Some refusing) [] 0 in
  NewStdioClient "any" [] ∅ w
  = Returns (Ok (mkStdioClient 0))
      (spawned w (mkProc refusing (child_environ [] (cmd_Env ∅))
                         true true true [initReq] 1 Scanning) 2).
Proof.
  cbv zeta.
  exact (connect_handshake "any" [] ∅
           (mkWorld [] (λ _ _ _, Some (scripted
              [reply 2 [("jsonrpc", JStr "2.0"); ("id", JNum 1);
                        ("error", JObj [("code", JNum (-32600))])]])) [] 0)
           (scripted [reply 2 [("jsonrpc", JStr "2.0"); ("id", JNum 1);
                               ("error", JObj [("code", JNum (-32600))])]])
           2
           (Doc (JObj [("jsonrpc", JStr "2.0"); ("id", JNum 1);
                       ("error", JObj [("code", JNum (-32600))])]))
           [("jsonrpc", JStr "2.0"); ("id", JNum 1);
            ("error", JObj [("code", JNum (-32600))])]
           eq_refl eq_refl eq_refl eq_refl).
Defined.

Lemma readResponse_error pr e pr' d :
  readResponse pr = PReturns (Fail e) pr' d →
  e = ErrReadResponse ∨ e = ErrUnmarshal.
Proof.
  unfold readResponse, pbind, pret.
  destruct (reader_Scan pr) as [[l|] pr1 d1|pr1]; [| |done].
  - destruct (json_Unmarshal l) as [response|e0] eqn:Hjson; [done|].
    intros [= <- _ _]. right. by eapply json_Unmarshal_error.
  - intros [= <- _ _]. by left.
Qed.

Lemma initialize_error pr e pr' d :
  initialize pr = PReturns (Some e) pr' d →
  e = ErrWrite ∨ e = ErrReadResponse ∨ e = ErrUnmarshal.
Proof.
  unfold initialize, pbind, sendRequest, stdin_Write, pret.
  destruct (negb (stdin_open pr)); [intros [= <- _ _]; by left|].
  destruct (accepts (image pr) (received pr));
    [|intros [= <- _ _]; by left|done].
  destruct (readResponse _) as [[response|e0] pr1 d1|pr1] eqn:Hread; [done| |done].
  intros [= <- _ _]. right. by eapply readResponse_error.
Qed.

(** X11: a connect fails in one of two ways only.  Either the command
    cannot be started: the start error is returned and the world is
    left as it was.  Or the handshake fails, with the write error, the
    read error or the JSON error: one process was spawned and is left
    ended with both pipes closed. *)
Theorem connect_failures command args env w e w' :
  NewStdioClient command args env w = Returns (Fail e) w' →
  (e = ErrStart ∧ w' = w
   ∧ os_exec w command args (child_environ (os_Environ w) (cmd_Env env)) = None)
  ∨ ((e = ErrWrite ∨ e = ErrReadResponse ∨ e = ErrUnmarshal)
     ∧ ∃ pr, procs w' = procs w ++ [pr] ∧ handles pr = (false, false, false)).
Proof.
  pose proof (NewStdioClient_eq (mkMCPServer "" command args env) w) as Heq.
  simpl in Heq. rewrite Heq. unfold fresh_proc. simpl.
  destruct (os_exec w _ _ _) as [prog|]; simpl.
  - set (pr0 := mkProc prog _ true true true [] 0 Scanning).
    destruct (initialize pr0) as [[e'|] pr d|pr] eqn:Hinit; [|done..].
    intros [= <- <-]. right. split; [by eapply initialize_error|].
    by exists (closed pr).
  - intros [= <- <-]. by left.
Qed.

Lemma connect_failures_witness :
  (ErrStart = ErrStart ∧ demo_world = demo_world
   ∧ os_exec demo_world "no-such-command" []
       (child_environ (os_Environ demo_world) (cmd_Env ∅)) = None)
  ∨ ((ErrStart = ErrWrite ∨ ErrStart = ErrReadResponse ∨ ErrStart = ErrUnmarshal)
     ∧ ∃ pr, procs demo_world = procs demo_world ++ [pr]
             ∧ handles pr = (false, false, false)).
Proof.
  apply (connect_failures "no-such-command" [] ∅ demo_world ErrStart demo_world).
  vm_compute. reflexivity.
Defined.

(** ** Package proxy: routing *)

(** X12: for a tool the owner mapping knows but whose owner has no
    session in the session map, route fails with the
    client-not-available error naming the owner, and leaves the world
    as it was. *)
Theorem route_without_session ctx toolName arguments p w serverName :
  ServerMap (toolCache p) !! toolName = Some serverName →
  clients p !! serverName = None →
  UseTool ctx toolName arguments p w
  = Returns (Fail (ErrClientNotAvailable serverName)) w.
Proof.
  intros Howner Hnone. unfold UseTool. by rewrite Howner, Hnone.
Qed.

Lemma route_without_session_witness :
  let p := mkSmartProxy demo_config (mkToolCache ∅ 0 {["alpha" := "A"]}) ∅ in
  UseTool demo_ctx "alpha" [] p demo_world
  = Returns (Fail (ErrClientNotAvailable "A")) demo_world.
Proof.
  cbv zeta.
  apply (route_without_session demo_ctx "alpha" []
           (mkSmartProxy demo_config (mkToolCache ∅ 0 {["alpha" := "A"]}) ∅)
           demo_world "A").
  - vm_compute. reflexivity.
  - reflexivity.
Defined.

Lemma CallTool_error ctx toolName arguments pr e pr' d :
  CallTool ctx toolName arguments pr = PReturns (Fail e) pr' d →
  e = ErrWrite ∨ e = ErrReadResponse ∨ e = ErrUnmarshal
  ∨ (∃ errorData, e = ErrToolError errorData) ∨ e = ErrInvalidFormat.
Proof.
  unfold CallTool, pbind, sendRequest, stdin_Write, pret.
  destruct (negb (stdin_open pr)); [intros [= <- _ _]; by left|].
  destruct (accepts (image pr) (received pr));
    [|intros [= <- _ _]; by left|done].
  destruct (readResponse _) as [[response|e0] pr1 d1|pr1] eqn:Hread; [| |done].
  - destruct (index response "error") as [errorData|].
    { intros [= <- _ _]. do 3 right. left. by eexists. }
    destruct (index response "result") as [[| | | | |result]|];
      try done; intros [= <- _ _]; by do 4 right.
  - intros [= <- _ _]. right.
    destruct (readResponse_error _ _ _ _ Hread) as [->| ->]; auto.
Qed.

(** X13: the errors of route.  A failing route returns the not-found
    error for its tool name, or the client-not-available error for the
    owner of the tool, or the execute error for its tool name wrapping
    what the call met: the write error, the read error, the JSON error,
    the provider's tool error or the invalid-format error; it returns
    no other error. *)
Theorem route_errors ctx toolName arguments p w e w' :
  UseTool ctx toolName arguments p w = Returns (Fail e) w' →
  (e = ErrToolNotFound toolName ∧ ServerMap (toolCache p) !! toolName = None)
  ∨ (∃ serverName, e = ErrClientNotAvailable serverName
       ∧ ServerMap (toolCache p) !! toolName = Some serverName
       ∧ clients p !! serverName = None)
  ∨ (∃ err, e = ErrExecuteTool toolName err
       ∧ (err = ErrWrite ∨ err = ErrReadResponse ∨ err = ErrUnmarshal
          ∨ (∃ errorData, err = ErrToolError errorData) ∨ err = ErrInvalidFormat)).
Proof.
  unfold UseTool.
  destruct (ServerMap (toolCache p) !! toolName) as [serverName|] eqn:Howner.
  2:{ intros [= <- _]. by left. }
  destruct (clients p !! serverName) as [client|] eqn:Hclient.
  2:{ intros [= <- _]. right. left. by exists serverName. }
  unfold bind, on.
  destruct (CallTool ctx toolName arguments (get_proc (cmd client) w))
    as [[result|err] pr' d|pr'] eqn:Hcall; simpl; try done.
  intros [= <- _]. right. right. exists err. split; [done|].
  by eapply CallTool_error.
Qed.

Lemma route_errors_witness :
  (ErrToolNotFound "gamma" = ErrToolNotFound "gamma"
   ∧ ServerMap (toolCache (New demo_config)) !! "gamma" = None)
  ∨ (∃ serverName, ErrToolNotFound "gamma" = ErrClientNotAvailable serverName
       ∧ ServerMap (toolCache (New demo_config)) !! "gamma" = Some serverName
       ∧ clients (New demo_config) !! serverName = None)
  ∨ (∃ err, ErrToolNotFound "gamma" = ErrExecuteTool "gamma" err
       ∧ (err = ErrWrite ∨ err = ErrReadResponse ∨ err = ErrUnmarshal
          ∨ (∃ errorData, err = ErrToolError errorData) ∨ err = ErrInvalidFormat)).
Proof.
  apply (route_errors demo_ctx "gamma" [] (New demo_config) demo_world
           (ErrToolNotFound "gamma") demo_world).
  reflexivity.
Defined.

Lemma on_final {A} c (m : PM A) w :
  same_os w (final_world (on c m w))
  ∧ length (procs (final_world (on c m w))) = length (procs w)
  ∧ (∀ pid, pid ≠ cmd c →
       procs (final_world (on c m w)) !! pid = procs w !! pid)
  ∧ (cmd c < length (procs w) →
     get_proc (cmd c) (final_world (on c m w)) = pfinal (m (get_proc (cmd c) w)))
  ∧ (length (procs w) ≤ cmd c →
     procs (final_world (on c m w)) = procs w)%nat.
Proof.
  unfold on.
  assert (∀ pr',
    length (<[cmd c := pr']> (procs w)) = length (procs w)
    ∧ (∀ pid, pid ≠ cmd c → <[cmd c := pr']> (procs w) !! pid = procs w !! pid)
    ∧ (cmd c < length (procs w) →
       default no_process (<[cmd c := pr']> (procs w) !! cmd c) = pr')
    ∧ ((length (procs w) ≤ cmd c)%nat → <[cmd c := pr']> (procs w) = procs w)) as H.
  { intros pr'. split; [apply length_insert|]. split; [|split].
    - intros pid Hne. by rewrite list_lookup_insert_ne.
    - intros Hlt. by rewrite list_lookup_insert_eq.
    - intros Hge. by apply list_insert_ge. }
  destruct (m (get_proc (cmd c) w)) as [a pr' d|pr']; simpl;
    destruct (H pr') as (H1 & H2 & H3 & H4); by repeat split.
Qed.

(** X14: route reaches the owner's session and no other.  With the
    tool owned and the owner's session registered, whatever the call
    comes to, every other process is left as it was, no process is
    spawned, and the owner's process has been written at most one
    line, the tools/call request with this tool name and these
    arguments, and has had at most one line read. *)
Theorem route_reaches_owner_only ctx toolName arguments p w serverName client :
  ServerMap (toolCache p) !! toolName = Some serverName →
  clients p !! serverName = Some client →
  let w' := final_world (UseTool ctx toolName arguments p w) in
  length (procs w') = length (procs w)
  ∧ (∀ pid, pid ≠ cmd client → procs w' !! pid = procs w !! pid)
  ∧ one_exchange (callReq toolName arguments)
      (get_proc (cmd client) w) (get_proc (cmd client) w').
Proof.
  intros Howner Hclient. cbv zeta.
  assert (final_world (UseTool ctx toolName arguments p w)
          = final_world (on client (CallTool ctx toolName arguments) w)) as ->.
  { unfold UseTool. rewrite Howner, Hclient. unfold bind.
    by destruct (on client (CallTool ctx toolName arguments) w) as [[r|e] w'|w']. }
  destruct (on_final client (CallTool ctx toolName arguments) w)
    as (_ & Hlen & Hother & Hown & Hdangling).
  split; [done|]. split; [done|].
  destruct (decide (cmd client < length (procs w))) as [Hlt|Hge].
  - rewrite (Hown Hlt). apply call_one_exchange_CallTool.
  - unfold get_proc. rewrite Hdangling by lia. by left.
Qed.

Lemma route_reaches_owner_only_witness :
  let p := (initialized demo_config).1 in
  let w := (initialized demo_config).2 in
  let w' := final_world (UseTool demo_ctx "alpha" [] p w) in
  length (procs w') = length (procs w)
  ∧ (∀ pid, pid ≠ 0 → procs w' !! pid = procs w !! pid)
  ∧ one_exchange (callReq "alpha" []) (get_proc 0 w) (get_proc 0 w').
Proof.
  cbv zeta.
  apply (route_reaches_owner_only demo_ctx "alpha" []
           (initialized demo_config).1 (initialized demo_config).2
           "A" (mkStdioClient 0)).
  - vm_compute. reflexivity.
  - vm_compute. reflexivity.
Defined.

(** ** Package proxy: shutdown *)

Lemma proxy_Close_eq closing p w :
  ∃ w1, proxy.Close closing p w = Returns None w1
        ∧ close_clients closing w = Returns tt w1.
Proof.
  unfold proxy.Close, bind.
  destruct (close_clients_spec closing w) as (w1 & -> & _). by exists w1.
Qed.

Lemma closed_get_proc closing (cs : gmap string StdioClient) w w1 name c :
  range_order cs closing → close_clients closing w = Returns tt w1 →
  cs !! name = Some c →
  handles (get_proc (cmd c) w1) = (false, false, false).
Proof.
  intros Hr Hclose Hc. unfold get_proc.
  destruct (procs w1 !! cmd c) as [pr|] eqn:Hpr; [|done].
  by eapply close_clients_registered.
Qed.

(** X15: shutdown.  [Close] of the proxy always returns, without
    error, whatever the closing of each client returns; it ends the
    process of every registered session and closes both its pipes,
    spawns nothing and leaves every other process as it was.  When
    every live process was a registered session, no process is alive
    after it. *)
Theorem shutdown_closes_all closing p w :
  range_order (clients p) closing →
  ∃ w1,
    proxy.Close closing p w = Returns None w1
    ∧ length (procs w1) = length (procs w)
    ∧ (∀ name c, clients p !! name = Some c →
         handles (get_proc (cmd c) w1) = (false, false, false))
    ∧ (∀ pid, (∀ name c, clients p !! name = Some c → cmd c ≠ pid) →
         procs w1 !! pid = procs w !! pid)
    ∧ (no_orphans p w → ∀ pid pr, procs w1 !! pid = Some pr → alive pr = false).
Proof.
  intros Hr.
  destruct (proxy_Close_eq closing p w) as (w1 & Hclose & Hloop).
  exists w1. split; [done|].
  split; [by eapply close_clients_length|].
  split; [intros name c; by apply (closed_get_proc _ _ _ _ _ _ Hr Hloop)|].
  split.
  - intros pid Hfree.
    destruct (close_clients_spec closing w) as (w1' & Hloop' & _ & Hprocs).
    rewrite Hloop' in Hloop. injection Hloop as ->.
    rewrite Hprocs, decide_False; [by destruct (procs w !! pid)|].
    intros (c & Hcmd & (entry & -> & Hin)%list_elem_of_fmap)%list_elem_of_fmap.
    destruct entry as [name c]. simpl in *.
    apply (range_order_elem _ _ _ _ Hr) in Hin. by apply (Hfree name c).
  - intros Horph pid pr. by apply (close_clients_all_ended _ _ _ _ _ _ Hr Horph Hloop).
Qed.

Lemma shutdown_closes_all_witness :
  let p := (initialized demo_config).1 in
  let w := (initialized demo_config).2 in
  ∃ w1,
    proxy.Close (map_to_list (clients p)) p w = Returns None w1
    ∧ length (procs w1) = length (procs w)
    ∧ (∀ name c, clients p !! name = Some c →
         handles (get_proc (cmd c) w1) = (false, false, false)).
Proof.
  cbv zeta.
  destruct (shutdown_closes_all (map_to_list (clients (initialized demo_config).1))
              (initialized demo_config).1 (initialized demo_config).2)
    as (w1 & H1 & H2 & H3 & _).
  - unfold range_order. reflexivity.
  - exists w1. exact (conj H1 (conj H2 H3)).
Defined.

(** X16: shutdown leaves the session map and the catalog as they are.
    A route after it still finds the owner and its session, and fails
    at the write with the execute error wrapping the write error; it
    reads nothing and changes no process. *)
Theorem route_after_shutdown ctx closing toolName arguments p w r w1 serverName client :
  range_order (clients p) closing →
  proxy.Close closing p w = Returns r w1 →
  ServerMap (toolCache p) !! toolName = Some serverName →
  clients p !! serverName = Some client →
  ∃ w2, UseTool ctx toolName arguments p w1
        = Returns (Fail (ErrExecuteTool toolName ErrWrite)) w2
        ∧ procs w2 = procs w1 ∧ clock w2 = clock w1.
Proof.
  intros Hr Hclose Howner Hclient.
  destruct (proxy_Close_eq closing p w) as (w1' & Hclose' & Hloop).
  rewrite Hclose' in Hclose. injection Hclose as _ ->.
  pose proof (closed_get_proc _ _ _ _ _ _ Hr Hloop Hclient) as [= Ha Hi Ho].
  unfold UseTool. rewrite Howner, Hclient. unfold bind, on.
  rewrite (closed_session_fails_fast_CallTool ctx toolName arguments
             (get_proc (cmd client) w1)) by done.
  eexists. split; [done|]. simpl. split; [|lia].
  unfold get_proc.
  destruct (procs w1 !! cmd client) as [pr|] eqn:Hpr; simpl.
  - by apply list_insert_id.
  - apply list_insert_ge. by apply lookup_ge_None.
Qed.

Lemma route_after_shutdown_witness :
  let p := (initialized demo_config).1 in
  let w := (initialized demo_config).2 in
  let w1 := final_world (proxy.Close (map_to_list (clients p)) p w) in
  ∃ w2, UseTool demo_ctx "alpha" [] p w1
        = Returns (Fail (ErrExecuteTool "alpha" ErrWrite)) w2
        ∧ procs w2 = procs w1 ∧ clock w2 = clock w1.
Proof.
  cbv zeta.
  apply (route_after_shutdown demo_ctx
           (map_to_list (clients (initialized demo_config).1)) "alpha" []
           (initialized demo_config).1 (initialized demo_config).2 None
           (final_world (proxy.Close (map_to_list (clients (initialized demo_config).1))
                           (initialized demo_config).1 (initialized demo_config).2))
           "A" (mkStdioClient 0)).
  - unfold range_order. reflexivity.
  - vm_compute. reflexivity.
  - vm_compute. reflexivity.
  - vm_compute. reflexivity.
Defined.

(** ** Package proxy: the catalog of a completed rebuild *)

Lemma completed_rebuild_names ctx closing order p w p' w' n :
  range_order (MCPServers (config p)) order →
  completed_rebuild ctx closing order p w p' w' →
  n ∈ dom (Tools (toolCache p'))
  ↔ ∃ s sc ts, MCPServers (config p) !! s = Some sc
               ∧ probe ctx w sc = Offers ts ∧ n ∈ Name <$> ts.
Proof.
  intros Hr (_ & _ & tc0 & HT0 & _ & HT & _)%completed_rebuild_catalog.
  rewrite HT, merge_servers_dom_listed by done.
  split; intros (s & sc & ts & Hin & H); exists s, sc, ts; (split; [|done]);
    by apply (range_order_elem _ _ _ _ Hr).
Qed.

(** X17: the catalog of a completed rebuild holds exactly the tool
    names that some configured provider lists when it is connected and
    asked: no name is lost and none is made up. *)
Theorem catalog_names_exact ctx closing order p w p' w' n :
  range_order (MCPServers (config p)) order →
  completed_rebuild ctx closing order p w p' w' →
  n ∈ dom (Tools (toolCache p'))
  ↔ ∃ s sc ts, MCPServers (config p) !! s = Some sc
               ∧ probe ctx w sc = Offers ts ∧ n ∈ Name <$> ts.
Proof.
  apply completed_rebuild_names.
Qed.

Lemma catalog_names_exact_witness :
  "beta" ∈ dom (Tools (toolCache (refreshed [] demo_order (New demo_config, demo_world)).1))
  ↔ ∃ s sc ts, MCPServers demo_config !! s = Some sc
               ∧ probe demo_ctx demo_world sc = Offers ts ∧ "beta" ∈ Name <$> ts.
Proof.
  apply (catalog_names_exact demo_ctx [] demo_order (New demo_config) demo_world
           (refreshed [] demo_order (New demo_config, demo_world)).1
           (refreshed [] demo_order (New demo_config, demo_world)).2).
  - unfold range_order, demo_order. reflexivity.
  - left. exists None. vm_compute. reflexivity.
Defined.

Lemma merge_servers_app ctx w o1 o2 tc :
  merge_servers ctx w (o1 ++ o2) tc
  = merge_servers ctx w o2 (merge_servers ctx w o1 tc).
Proof. unfold merge_servers. by rewrite foldl_app. Qed.

Lemma cache_tools_last serverName ts1 t0 ts2 tc :
  Name t0 ∉ Name <$> ts2 →
  Tools (foldl (cache_tool serverName) tc (ts1 ++ t0 :: ts2)) !! Name t0
  = Some (set_ServerName serverName t0).
Proof.
  intros Hlast. rewrite foldl_app. simpl.
  rewrite cache_tools_other by done. simpl. by rewrite lookup_insert_eq.
Qed.

(** X18: last writer wins, in full.  When the provider visited at some
    point lists a tool, no later tool of its listing bears the same
    name, and no provider visited after it lists that name, the catalog
    of the completed rebuild holds under that name this tool, tagged
    with this provider, and the owner mapping holds this provider,
    whatever the providers visited before it listed. *)
Theorem catalog_last_writer_wins ctx closing o1 s sc o2 p w p' w' ts1 t0 ts2 :
  completed_rebuild ctx closing (o1 ++ (s, sc) :: o2) p w p' w' →
  probe ctx w sc = Offers (ts1 ++ t0 :: ts2) →
  Name t0 ∉ Name <$> ts2 →
  (∀ s' sc' ts', (s', sc') ∈ o2 → probe ctx w sc' = Offers ts' →
                 Name t0 ∉ Name <$> ts') →
  Tools (toolCache p') !! Name t0 = Some (set_ServerName s t0)
  ∧ ServerMap (toolCache p') !! Name t0 = Some s.
Proof.
  intros Hdone Hprobe Hlast Hlater.
  pose proof (completed_rebuild_dom _ _ _ _ _ _ _ Hdone) as Hdom.
  apply completed_rebuild_catalog in Hdone as (_ & _ & tc0 & HT0 & HS0 & HT & HS).
  assert (Tools (toolCache p') !! Name t0 = Some (set_ServerName s t0)) as Hentry.
  { rewrite HT. change (o1 ++ (s, sc) :: o2) with (o1 ++ [(s, sc)] ++ o2).
    rewrite !merge_servers_app, merge_servers_unlisted by done.
    unfold merge_servers at 1. simpl. unfold merge_server at 1. simpl.
    rewrite Hprobe. by apply cache_tools_last. }
  split; [done|].
  assert (cache_consistent (merge_servers ctx w (o1 ++ (s, sc) :: o2) tc0)) as Hcons
    by (by apply merge_servers_consistent, empty_cache_consistent).
  rewrite HS. rewrite HT in Hentry. by apply Hcons in Hentry as [_ ->].
Qed.

Lemma catalog_last_writer_wins_witness :
  let order := [("A", mkMCPServer "" "alpha-server" [] ∅);
                ("C", mkMCPServer "" "gamma-server" [] ∅)] in
  let after := refreshed [] order (New clash_config, demo_world) in
  let t0 := mkTool "alpha" "a tool" JNull "" in
  Tools (toolCache after.1) !! Name t0 = Some (set_ServerName "C" t0)
  ∧ ServerMap (toolCache after.1) !! Name t0 = Some "C".
Proof.
  cbv zeta.
  apply (catalog_last_writer_wins demo_ctx []
           [("A", mkMCPServer "" "alpha-server" [] ∅)]
           "C" (mkMCPServer "" "gamma-server" [] ∅) []
           (New clash_config) demo_world
           (refreshed [] [("A", mkMCPServer "" "alpha-server" [] ∅);
                          ("C", mkMCPServer "" "gamma-server" [] ∅)]
              (New clash_config, demo_world)).1
           (refreshed [] [("A", mkMCPServer "" "alpha-server" [] ∅);
                          ("C", mkMCPServer "" "gamma-server" [] ∅)]
              (New clash_config, demo_world)).2
           [] (mkTool "alpha" "a tool" JNull "") []).
  - left. exists None. vm_compute. reflexivity.
  - vm_compute. reflexivity.
  - by intros ?%elem_of_nil.
  - by intros s' sc' ts' ?%elem_of_nil.
Defined.

(** The sessions a rebuild leaves are those of the configured servers
    that answer. *)
Lemma completed_rebuild_sessions ctx closing order p w p' w' name :
  range_order (MCPServers (config p)) order →
  completed_rebuild ctx closing order p w p' w' →
  (∀ c, clients p' !! name = Some c →
     session_open c w'
     ∧ ∃ sc ts, MCPServers (config p) !! name = Some sc ∧ probe ctx w sc = Offers ts)
  ∧ (∀ sc ts, MCPServers (config p) !! name = Some sc → probe ctx w sc = Offers ts →
       ∃ c, clients p' !! name = Some c ∧ session_open c w').
Proof.
  intros Hr Hdone.
  apply completed_rebuild_inv in Hdone
    as (p0 & w0 & p2 & Hos & Hcfg & _ & _ & HC & Hloop & _ & _ & HC').
  rewrite HC'. rewrite <- Hcfg in Hr.
  pose proof (range_order_NoDup _ _ Hr) as Hnd.
  destruct (discover_servers_clients _ _ _ _ _ _ Hnd Hloop) as (Hout & Hin & _).
  rewrite Hcfg in Hr. split.
  - intros c Hc.
    destruct (decide (name ∈ order.*1)) as [Hmem|Hnot].
    + apply list_elem_of_fmap in Hmem as ([name' sc] & -> & Hmem). simpl in *.
      specialize (Hin _ _ Hmem). rewrite (probe_same_os _ _ _ _ Hos) in Hin.
      destruct (probe ctx w sc) as [| |ts] eqn:Hp.
      * rewrite HC, lookup_empty in Hin. destruct Hin; congruence.
      * rewrite HC, lookup_empty in Hin. destruct Hin; congruence.
      * destruct Hin as (c' & Hc' & _ & Hopen).
        assert (c' = c) as -> by congruence.
        split; [done|]. exists sc, ts. split; [|done].
        by apply (range_order_elem _ _ _ _ Hr).
    + rewrite (Hout _ Hnot), HC, lookup_empty in Hc. done.
  - intros sc ts Hsc Hp. apply (range_order_elem _ _ _ _ Hr) in Hsc.
    specialize (Hin _ _ Hsc). rewrite (probe_same_os _ _ _ _ Hos), Hp in Hin.
    destruct Hin as (c & Hc & _ & Hopen). by exists c.
Qed.

(** X19: after a completed rebuild the session map holds one open
    session for each configured provider that answers, and no other:
    a provider that fails or is not configured has none. *)
Theorem sessions_are_answering_providers ctx closing order p w p' w' name :
  range_order (MCPServers (config p)) order →
  completed_rebuild ctx closing order p w p' w' →
  (∀ c, clients p' !! name = Some c →
     session_open c w'
     ∧ ∃ sc ts, MCPServers (config p) !! name = Some sc ∧ probe ctx w sc = Offers ts)
  ∧ (∀ sc ts, MCPServers (config p) !! name = Some sc → probe ctx w sc = Offers ts →
       ∃ c, clients p' !! name = Some c ∧ session_open c w').
Proof.
  apply completed_rebuild_sessions.
Qed.

Lemma sessions_are_answering_providers_witness :
  let after := refreshed [] demo_order (New demo_config, demo_world) in
  (∀ c, clients after.1 !! "X" = Some c →
     session_open c after.2
     ∧ ∃ sc ts, MCPServers demo_config !! "X" = Some sc
                ∧ probe demo_ctx demo_world sc = Offers ts)
  ∧ (∀ sc ts, MCPServers demo_config !! "X" = Some sc →
       probe demo_ctx demo_world sc = Offers ts →
       ∃ c, clients after.1 !! "X" = Some c ∧ session_open c after.2).
Proof.
  cbv zeta.
  apply (sessions_are_answering_providers demo_ctx [] demo_order (New demo_config)
           demo_world
           (refreshed [] demo_order (New demo_config, demo_world)).1
           (refreshed [] demo_order (New demo_config, demo_world)).2 "X").
  - unfold range_order, demo_order. reflexivity.
  - left. exists None. vm_compute. reflexivity.
Defined.

Lemma completed_rebuild_owner ctx closing order p w p' w' n owner :
  range_order (MCPServers (config p)) order →
  completed_rebuild ctx closing order p w p' w' →
  ServerMap (toolCache p') !! n = Some owner →
  ∃ sc ts, MCPServers (config p) !! owner = Some sc ∧ probe ctx w sc = Offers ts.
Proof.
  intros Hr Hdone Howner.
  pose proof (completed_rebuild_dom _ _ _ _ _ _ _ Hdone) as Hdom.
  apply completed_rebuild_inv in Hdone
    as (p0 & w0 & p2 & Hos & Hcfg & HT & HS & HC & Hloop & HT' & HS' & _).
  rewrite <- Hcfg in Hr. rewrite HT', HS' in *.
  destruct (rebuild_facts _ _ _ _ _ _ _ w Hr Hos HT HS HC Hloop)
    as (Hcons & Hprov & _). rewrite Hcfg in Hprov.
  assert (n ∈ dom (Tools (toolCache p2))) as [t Ht]%elem_of_dom.
  { rewrite Hdom. apply elem_of_dom. by eexists. }
  destruct (Hprov _ _ Ht) as (sc & ts & t0 & Hsc & Hp & _).
  apply Hcons in Ht as [_ Ht]. rewrite Howner in Ht. injection Ht as ->.
  by exists sc, ts.
Qed.

(** X20: after a completed rebuild every tool of the owner mapping is
    routable: its owner has a registered, open session, so that a
    route for it, made before anything else changes, reaches the call
    and can fail only with the execute error, never with the not-found
    or the client-not-available error. *)
Theorem cached_tools_routable ctx closing order p w p' w' n owner :
  range_order (MCPServers (config p)) order →
  completed_rebuild ctx closing order p w p' w' →
  ServerMap (toolCache p') !! n = Some owner →
  (∃ c, clients p' !! owner = Some c ∧ session_open c w')
  ∧ ∀ ctx' arguments e w'',
      UseTool ctx' n arguments p' w' = Returns (Fail e) w'' →
      ∃ err, e = ErrExecuteTool n err.
Proof.
  intros Hr Hdone Howner.
  destruct (completed_rebuild_owner _ _ _ _ _ _ _ _ _ Hr Hdone Howner)
    as (sc & ts & Hsc & Hp).
  destruct (completed_rebuild_sessions _ _ _ _ _ _ _ owner Hr Hdone) as (_ & Hsess).
  destruct (Hsess _ _ Hsc Hp) as (c & Hc & Hopen).
  split; [by exists c|].
  intros ctx' arguments e w''. unfold UseTool. rewrite Howner, Hc. unfold bind.
  destruct (on c (CallTool ctx' n arguments) w') as [[r|err] w2|w2]; try done.
  intros [= <- _]. by exists err.
Qed.

Lemma cached_tools_routable_witness :
  let after := refreshed [] demo_order (New demo_config, demo_world) in
  (∃ c, clients after.1 !! "B" = Some c ∧ session_open c after.2)
  ∧ ∀ ctx' arguments e w'',
      UseTool ctx' "beta" arguments after.1 after.2 = Returns (Fail e) w'' →
      ∃ err, e = ErrExecuteTool "beta" err.
Proof.
  cbv zeta.
  apply (cached_tools_routable demo_ctx [] demo_order (New demo_config) demo_world
           (refreshed [] demo_order (New demo_config, demo_world)).1
           (refreshed [] demo_order (New demo_config, demo_world)).2 "beta" "B").
  - unfold range_order, demo_order. reflexivity.
  - left. exists None. vm_compute. reflexivity.
  - vm_compute. reflexivity.
Defined.

(** X21: when no configured provider answers (none is configured, or
    each fails to start, to shake hands or to list), a completed
    rebuild leaves an empty catalog, an empty owner mapping and an
    empty session map; it is no error. *)
Theorem rebuild_without_providers ctx closing order p w p' w' :
  range_order (MCPServers (config p)) order →
  (∀ s sc ts, MCPServers (config p) !! s = Some sc → probe ctx w sc ≠ Offers ts) →
  completed_rebuild ctx closing order p w p' w' →
  Tools (toolCache p') = ∅ ∧ ServerMap (toolCache p') = ∅ ∧ clients p' = ∅.
Proof.
  intros Hr Hnone Hdone.
  pose proof (completed_rebuild_dom _ _ _ _ _ _ _ Hdone) as Hdom.
  assert (dom (Tools (toolCache p')) = ∅) as Hempty.
  { apply set_eq. intros n. rewrite (completed_rebuild_names _ _ _ _ _ _ _ n Hr Hdone).
    split; [|by intros ?%not_elem_of_empty].
    intros (s & sc & ts & Hsc & Hp & _). by destruct (Hnone s sc ts). }
  split; [by apply dom_empty_inv_L|].
  split; [apply dom_empty_inv_L; by rewrite <- Hdom|].
  apply map_eq. intros name. rewrite lookup_empty.
  destruct (clients p' !! name) as [c|] eqn:Hc; [|done].
  destruct (completed_rebuild_sessions _ _ _ _ _ _ _ name Hr Hdone) as (Hsess & _).
  destruct (Hsess _ Hc) as (_ & sc & ts & Hsc & Hp). by destruct (Hnone name sc ts).
Qed.

Lemma rebuild_without_providers_witness :
  let cfg := mkMCPConfig {["X" := mkMCPServer "" "broken-server" [] ∅]} in
  let after := refreshed [] (map_to_list (MCPServers cfg)) (New cfg, demo_world) in
  Tools (toolCache after.1) = ∅ ∧ ServerMap (toolCache after.1) = ∅
  ∧ clients after.1 = ∅.
Proof.
  cbv zeta.
  apply (rebuild_without_providers demo_ctx []
           (map_to_list
              (MCPServers (mkMCPConfig {["X" := mkMCPServer "" "broken-server" [] ∅]})))
           (New (mkMCPConfig {["X" := mkMCPServer "" "broken-server" [] ∅]}))
           demo_world
           (refreshed []
              (map_to_list
                 (MCPServers (mkMCPConfig {["X" := mkMCPServer "" "broken-server" [] ∅]})))
              (New (mkMCPConfig {["X" := mkMCPServer "" "broken-server" [] ∅]}),
               demo_world)).1
           (refreshed []
              (map_to_list
                 (MCPServers (mkMCPConfig {["X" := mkMCPServer "" "broken-server" [] ∅]})))
              (New (mkMCPConfig {["X" := mkMCPServer "" "broken-server" [] ∅]}),
               demo_world)).2).
  - unfold range_order. reflexivity.
  - intros s sc ts H. apply elem_of_map_to_list in H. vm_compute in H.
    apply elem_of_cons in H as [[= -> ->]|H]; [vm_compute; discriminate|].
    by apply elem_of_nil in H.
  - left. exists None. vm_compute. reflexivity.
Defined.

(** X22: [discoverAllTools] closes no session that is already
    registered.  Run by [Initialize] on a proxy that holds an open
    session for a provider that answers again, it registers the new
    session under the provider's name and leaves the process of the old
    one alive with both pipes open and registered under no name. *)
Theorem discover_again_orphans ctx order p w p' e w' name sc ts c :
  range_order (MCPServers (config p)) order →
  MCPServers (config p) !! name = Some sc →
  probe ctx w sc = Offers ts →
  clients p !! name = Some c →
  session_open c w →
  (∀ name', clients p !! name' = Some c → name' = name) →
  Initialize ctx order p w = Returns (p', e) w' →
  session_open c w'
  ∧ (∀ name', clients p' !! name' ≠ Some c)
  ∧ ∃ c', clients p' !! name = Some c' ∧ session_open c' w'.
Proof.
  intros Hr Hsc Hp Hc Hopen Honly Hinit.
  apply Initialize_inv in Hinit as [Hdisc _].
  apply discoverAllTools_inv in Hdisc as (p2 & Hloop & [= -> ->]). simpl.
  pose proof (discover_servers_catalog _ _ _ _ _ _ Hloop) as (_ & _ & _ & new & Hnew).
  pose proof (range_order_NoDup _ _ Hr) as Hnd.
  destruct (discover_servers_clients _ _ _ _ _ _ Hnd Hloop) as (Hout & Hin & _).
  assert (Hmine : ∃ c', clients p2 !! name = Some c'
                        ∧ (length (procs w) ≤ cmd c')%nat ∧ session_open c' w').
  { apply (range_order_elem _ _ _ _ Hr) in Hsc. specialize (Hin _ _ Hsc).
    by rewrite Hp in Hin. }
  split; [by eapply session_open_grow|]. split.
  - intros name' Hc'.
    destruct (decide (name' ∈ order.*1)) as [Hmem|Hnot].
    + apply list_elem_of_fmap in Hmem as ([name'' sc'] & -> & Hmem). simpl in *.
      specialize (Hin _ _ Hmem).
      assert (clients p2 !! name'' = None ∨ clients p2 !! name'' = clients p !! name''
              → False) as Hold.
      { intros [H|H]; [congruence|]. rewrite Hc' in H. symmetry in H.
        apply Honly in H as ->.
        destruct Hmine as (c' & Hc'' & Hge & _).
        assert (c' = c) as -> by congruence.
        destruct Hopen as [Hlt _]. lia. }
      destruct (probe ctx w sc') as [| |ts'].
      * by apply Hold.
      * by apply Hold.
      * destruct Hin as (c' & Hc'' & Hge & _).
        assert (c' = c) as -> by congruence.
        destruct Hopen as [Hlt _]. lia.
    + rewrite (Hout _ Hnot) in Hc'. apply Honly in Hc' as ->.
      apply Hnot. apply list_elem_of_fmap. exists (name, sc). split; [done|].
      by apply (range_order_elem _ _ _ _ Hr).
  - destruct Hmine as (c' & Hc' & _ & Hopen'). by exists c'.
Qed.

Lemma discover_again_orphans_witness :
  let p := (initialized demo_config).1 in
  let w := (initialized demo_config).2 in
  let again := initialized_again demo_order (p, w) in
  session_open (mkStdioClient 0) again.2
  ∧ (∀ name', clients again.1 !! name' ≠ Some (mkStdioClient 0))
  ∧ ∃ c', clients again.1 !! "A" = Some c' ∧ session_open c' again.2.
Proof.
  cbv zeta.
  apply (discover_again_orphans demo_ctx demo_order
           (initialized demo_config).1 (initialized demo_config).2
           (initialized_again demo_order
              ((initialized demo_config).1, (initialized demo_config).2)).1
           None
           (initialized_again demo_order
              ((initialized demo_config).1, (initialized demo_config).2)).2
           "A" (mkMCPServer "" "alpha-server" [] ∅)
           [mkTool "alpha" "a tool" JNull ""] (mkStdioClient 0)).
  - unfold range_order, demo_order. vm_compute. reflexivity.
  - vm_compute. reflexivity.
  - vm_compute. reflexivity.
  - vm_compute. reflexivity.
  - split; vm_compute; [lia|reflexivity].
  - intros name' H.
    assert ((name', mkStdioClient 0)
            ∈ map_to_list (clients (initialized demo_config).1)) as Hin
      by (by apply elem_of_map_to_list).
    vm_compute in Hin.
    apply elem_of_cons in Hin as [[= ->]|Hin]; [done|].
    apply elem_of_cons in Hin as [[=]|Hin].
    by apply elem_of_nil in Hin.
  - vm_compute. reflexivity.
Defined.

Lemma completed_rebuild_consistent ctx closing order p w p' w' :
  completed_rebuild ctx closing order p w p' w' →
  ∀ n t, Tools (toolCache p') !! n = Some t → Name t = n.
Proof.
  intros (_ & _ & tc0 & HT0 & _ & HT & _)%completed_rebuild_catalog n t.
  rewrite HT. intros Ht.
  by apply (merge_servers_consistent ctx w order tc0 (empty_cache_consistent _ HT0)) in Ht
    as [Hn _].
Qed.

(** X23: after a completed rebuild, [ListTools] of the proxy returns
    the descriptors of the catalog, each once: as many as the catalog
    has names, each one the entry under its own name, so that no two of
    them bear the same name. *)
Theorem listAll_descriptors ctx closing order p w p' w' ctx' :
  completed_rebuild ctx closing order p w p' w' →
  NoDup (Name <$> proxy.ListTools ctx' p')
  ∧ (∀ t, t ∈ proxy.ListTools ctx' p' ↔ Tools (toolCache p') !! Name t = Some t)
  ∧ length (proxy.ListTools ctx' p') = size (Tools (toolCache p')).
Proof.
  intros Hdone.
  pose proof (completed_rebuild_consistent _ _ _ _ _ _ _ Hdone) as Hcons.
  unfold proxy.ListTools. split; [|split].
  - assert (Name <$> (map_to_list (Tools (toolCache p'))).*2
            = (map_to_list (Tools (toolCache p'))).*1) as ->.
    { rewrite <- list_fmap_compose. apply Forall_fmap_ext.
      apply Forall_forall. intros [n t] Hin. simpl.
      apply elem_of_map_to_list in Hin. by apply Hcons. }
    apply NoDup_fst_map_to_list.
  - intros t. rewrite list_elem_of_fmap. split.
    + intros ([n t'] & -> & Hin). simpl. apply elem_of_map_to_list in Hin.
      by rewrite (Hcons _ _ Hin).
    + intros Hin. exists (Name t, t). split; [done|]. by apply elem_of_map_to_list.
  - by rewrite length_fmap, length_map_to_list.
Qed.

Lemma listAll_descriptors_witness :
  let after := refreshed [] demo_order (New demo_config, demo_world) in
  NoDup (Name <$> proxy.ListTools demo_ctx after.1)
  ∧ (∀ t, t ∈ proxy.ListTools demo_ctx after.1
          ↔ Tools (toolCache after.1) !! Name t = Some t)
  ∧ length (proxy.ListTools demo_ctx after.1) = size (Tools (toolCache after.1)).
Proof.
  cbv zeta.
  apply (listAll_descriptors demo_ctx [] demo_order (New demo_config) demo_world
           (refreshed [] demo_order (New demo_config, demo_world)).1
           (refreshed [] demo_order (New demo_config, demo_world)).2 demo_ctx).
  left. exists None. vm_compute. reflexivity.
Defined.

(** X24: a rebuild returns exactly when no configured provider hangs,
    and then without error: a provider that fails costs nothing but its
    own tools, one that never takes its request or never answers keeps
    the refresh, and [Initialize] alike, from returning. *)
Theorem rebuild_returns_iff_no_hang ctx closing order p w :
  range_order (MCPServers (config p)) order →
  ((∃ r w', RefreshTools ctx closing order p w = Returns r w')
   ↔ ∀ name sc, MCPServers (config p) !! name = Some sc → probe ctx w sc ≠ Hangs)
  ∧ ((∃ r w', Initialize ctx order p w = Returns r w')
     ↔ ∀ name sc, MCPServers (config p) !! name = Some sc → probe ctx w sc ≠ Hangs)
  ∧ (∀ r w', RefreshTools ctx closing order p w = Returns r w' → r.2 = None)
  ∧ (∀ r w', Initialize ctx order p w = Returns r w' → r.2 = None).
Proof.
  intros Hr.
  destruct (RefreshTools_reset_eq closing p w) as (w1 & Hreset & Hclose).
  destruct (close_clients_spec closing w) as (w1' & Hclose' & Hos & _).
  rewrite Hclose' in Hclose. injection Hclose as ->.
  split; [|split; [|split]].
  - split.
    + intros (r & w' & (p1 & w2 & Hreset' & Hdisc)%RefreshTools_inv) name sc Hsc.
      rewrite Hreset in Hreset'. injection Hreset' as <- <-.
      apply discoverAllTools_inv in Hdisc as (p2 & Hloop & _).
      rewrite <- (probe_same_os _ _ _ _ Hos).
      eapply discover_servers_no_hang; [done|].
      by apply (range_order_elem _ _ _ _ Hr).
    + intros Hnohang.
      destruct (discover_servers_returns ctx order
                  (mkSmartProxy (config p)
                     (mkToolCache ∅ (LastSync (toolCache p)) ∅) ∅) w1)
        as (p2 & w2 & Hloop).
      { intros name sc Hin. rewrite (probe_same_os _ _ _ _ Hos).
        apply (Hnohang name). by apply (range_order_elem _ _ _ _ Hr). }
      eexists _, w2. unfold RefreshTools, bind. rewrite Hreset.
      unfold discoverAllTools, bind. rewrite Hloop. reflexivity.
  - split.
    + intros (r & w' & [Hdisc _]%Initialize_inv) name sc Hsc.
      apply discoverAllTools_inv in Hdisc as (p2 & Hloop & _).
      eapply discover_servers_no_hang; [done|].
      by apply (range_order_elem _ _ _ _ Hr).
    + intros Hnohang.
      destruct (discover_servers_returns ctx order p w) as (p2 & w2 & Hloop).
      { intros name sc Hin. apply (Hnohang name).
        by apply (range_order_elem _ _ _ _ Hr). }
      eexists _, w2. unfold Initialize, bind, discoverAllTools, bind.
      rewrite Hloop. reflexivity.
  - intros r w' (p1 & w2 & _ & Hdisc)%RefreshTools_inv.
    by apply discoverAllTools_inv in Hdisc as (p2 & _ & ->).
  - intros r w' [_ H]%Initialize_inv. done.
Qed.

Lemma rebuild_returns_iff_no_hang_witness :
  (∃ r w', RefreshTools demo_ctx [] demo_order (New demo_config) demo_world
           = Returns r w')
  ↔ ∀ name sc, MCPServers demo_config !! name = Some sc →
               probe demo_ctx demo_world sc ≠ Hangs.
Proof.
  destruct (rebuild_returns_iff_no_hang demo_ctx [] demo_order (New demo_config)
              demo_world) as (H & _).
  - unfold range_order, demo_order. reflexivity.
  - exact H.
Defined.

(** X25: on an open session whose scanner has met no error, whose
    request is taken and whose response is a line of less than 64 KiB
    that is a JSON object: a response with an error field makes
    [CallTool] fail with the tool error wrapping that payload; one
    without an error field whose result field is an object makes it
    return that object; one without an error field whose result field
    is missing or no object makes it fail with the invalid-format
    error.  In each case the session stays open with its scanner
    reading, and a next call on it is served in the same way. *)
Theorem invoke_response ctx toolName arguments pr d response :
  handles pr = (true, true, true) → reader pr = Scanning →
  accepts (image pr) (received pr) = Accepted →
  emits (image pr) (received pr ++ [callReq toolName arguments]) (consumed pr)
  = Arrives d (Doc (JObj response)) →
  ∃ pr',
    (∀ errorData, index response "error" = Some errorData →
       CallTool ctx toolName arguments pr = PReturns (Fail (ErrToolError errorData)) pr' d)
    ∧ (∀ result, index response "error" = None →
         index response "result" = Some (JObj result) →
         CallTool ctx toolName arguments pr = PReturns (Ok result) pr' d)
    ∧ (index response "error" = None →
       (∀ result, index response "result" ≠ Some (JObj result)) →
       CallTool ctx toolName arguments pr = PReturns (Fail ErrInvalidFormat) pr' d)
    ∧ pfinal (CallTool ctx toolName arguments pr) = pr'
    ∧ handles pr' = (true, true, true) ∧ reader pr' = Scanning
    ∧ ∀ toolName2 arguments2 d2 response2 result2,
        accepts (image pr') (received pr') = Accepted →
        emits (image pr') (received pr' ++ [callReq toolName2 arguments2]) (consumed pr')
        = Arrives d2 (Doc (JObj response2)) →
        index response2 "error" = None →
        index response2 "result" = Some (JObj result2) →
        ∃ pr'', CallTool ctx toolName2 arguments2 pr' = PReturns (Ok result2) pr'' d2.
Proof.
  intros Hh Hrd Hacc Hemit.
  pose proof (CallTool_answered ctx _ _ _ _ _ Hh Hrd Hacc Hemit) as Hcall.
  exists (bump_consumed (push_received (callReq toolName arguments) pr)).
  assert (handles (bump_consumed (push_received (callReq toolName arguments) pr))
          = (true, true, true)) as Hh' by done.
  assert (reader (bump_consumed (push_received (callReq toolName arguments) pr))
          = Scanning) as Hrd' by done.
  split; [|split; [|split; [|split; [|split; [|split]]]]].
  - intros errorData He. by rewrite Hcall, He.
  - intros result He Hr. by rewrite Hcall, He, Hr.
  - intros He Hr. rewrite Hcall, He.
    destruct (index response "result") as [[| | | | |result]|]; try done.
    by destruct (Hr result).
  - by rewrite Hcall.
  - done.
  - done.
  - intros toolName2 arguments2 d2 response2 result2 Hacc2 Hemit2 He2 Hr2.
    eexists. by rewrite (CallTool_answered ctx _ _ _ _ _ Hh' Hrd' Hacc2 Hemit2), He2, Hr2.
Qed.

Lemma invoke_response_witness :
  let response := [("jsonrpc", JStr "2.0"); ("id", JNum 3);
                   ("error", JObj [("code", JNum (-32000)); ("message", JStr "no such file")])] in
  let pr := mkProc (scripted [reply 5 response; result_reply 0 [("answer", JNum 7)]])
                   [] true true true [] 0 Scanning in
  ∃ pr',
    CallTool demo_ctx "read_file" [] pr
    = PReturns (Fail (ErrToolError (JObj [("code", JNum (-32000));
                                          ("message", JStr "no such file")]))) pr' 5
    ∧ handles pr' = (true, true, true)
    ∧ ∃ pr'', CallTool demo_ctx "read_file" [] pr'
              = PReturns (Ok [("answer", JNum 7)]) pr'' 0.
Proof.
  cbv zeta.
  destruct (invoke_response demo_ctx "read_file" []
              (mkProc (scripted [reply 5 [("jsonrpc", JStr "2.0"); ("id", JNum 3);
                                          ("error", JObj [("code", JNum (-32000));
                                                          ("message", JStr "no such file")])];
                                 result_reply 0 [("answer", JNum 7)]])
                      [] true true true [] 0 Scanning)
              5
              [("jsonrpc", JStr "2.0"); ("id", JNum 3);
               ("error", JObj [("code", JNum (-32000)); ("message", JStr "no such file")])]
              eq_refl eq_refl eq_refl eq_refl)
    as (pr' & Herr & _ & _ & Hfinal & Hopen & _ & Hnext).
  exists pr'. split; [by apply Herr|]. split; [done|].
  subst pr'.
  apply (Hnext "read_file" [] 0
           [("jsonrpc", JStr "2.0"); ("id", JNum 3); ("result", JObj [("answer", JNum 7)])]
           [("answer", JNum 7)]).
  - vm_compute. reflexivity.
  - vm_compute. reflexivity.
  - reflexivity.
  - reflexivity.
Defined.

(** X26: a route to an open session whose scanner has met no error and
    whose request is taken lasts as long as the provider takes to
    answer: it returns when the response line has been read, at the
    time the line arrived, and it does not return when no line ever
    arrives.  Whatever the outcome, it closes no pipe and ends no
    process. *)
Theorem route_waits_for_response ctx toolName arguments p w serverName client :
  ServerMap (toolCache p) !! toolName = Some serverName →
  clients p !! serverName = Some client →
  session_open client w →
  reader (get_proc (cmd client) w) = Scanning →
  accepts (image (get_proc (cmd client) w)) (received (get_proc (cmd client) w))
  = Accepted →
  let next := emits (image (get_proc (cmd client) w))
                    (received (get_proc (cmd client) w) ++ [callReq toolName arguments])
                    (consumed (get_proc (cmd client) w)) in
  (∀ pid, handles (get_proc pid (final_world (UseTool ctx toolName arguments p w)))
          = handles (get_proc pid w))
  ∧ (∀ d l, next = Arrives d l →
       ∃ r w', UseTool ctx toolName arguments p w = Returns r w'
               ∧ clock w' = clock w + d)
  ∧ (next = Never → ∃ w', UseTool ctx toolName arguments p w = Blocks w').
Proof.
  intros Howner Hclient [_ Hopen] Hrd Hacc next. subst next.
  split; [apply UseTool_keeps|]. split.
  - intros d l Hemit.
    destruct (CallTool_arrived ctx toolName arguments _ d l Hopen Hrd Hacc Hemit)
      as (r & pr' & Hcall).
    unfold UseTool. rewrite Howner, Hclient. unfold bind, on. rewrite Hcall.
    destruct r; by eexists _, _.
  - intros Hemit.
    destruct (CallTool_silent ctx toolName arguments _ Hopen Hrd Hacc Hemit)
      as (pr' & Hcall).
    unfold UseTool. rewrite Howner, Hclient. unfold bind, on. rewrite Hcall.
    by eexists.
Qed.

Lemma route_waits_for_response_witness :
  let p := (initialized slow_config).1 in
  let w := (initialized slow_config).2 in
  (∀ pid, handles (get_proc pid (final_world (UseTool demo_ctx "mute" [] p w)))
          = handles (get_proc pid w))
  ∧ ∃ w', UseTool demo_ctx "mute" [] p w = Blocks w'.
Proof.
  cbv zeta.
  destruct (route_waits_for_response demo_ctx "mute" []
              (initialized slow_config).1 (initialized slow_config).2
              "M" (mkStdioClient 1))
    as (Hkeep & _ & Hnever).
  - vm_compute. reflexivity.
  - vm_compute. reflexivity.
  - split; vm_compute; [lia|reflexivity].
  - vm_compute. reflexivity.
  - vm_compute. reflexivity.
  - split; [done|]. apply Hnever. vm_compute. reflexivity.
Defined.

Lemma readResponse_overlong pr d l head :
  reader pr = Scanning → stdout_open pr = true →
  emits (image pr) (received pr) (consumed pr) = Overlong d l head →
  readResponse pr = PReturns (Fail ErrReadResponse) (set_reader (Holding head) pr) d.
Proof.
  intros Hrd Ho Hemit. unfold readResponse, pbind, reader_Scan, pret.
  rewrite Hrd, Ho, Hemit. simpl. f_equal. lia.
Qed.

Lemma readResponse_spent pr :
  reader pr = Spent →
  readResponse pr = PReturns (Fail ErrReadResponse) pr 0.
Proof.
  intros Hrd. unfold readResponse, pbind, reader_Scan, pret. by rewrite Hrd.
Qed.

(** X27: a response that comes as a line of 64 KiB or more is not
    delivered.  On an open session whose scanner has met no error and
    whose request is taken, [initialize], [ListTools] and [CallTool]
    fail with the read error when such a line arrives; the request has
    been written, no line counts as read, both pipes stay open and the
    process lives, and the scanner has left the reading state. *)
Theorem overlong_line_fails_read ctx toolName arguments pr req d l head :
  handles pr = (true, true, true) → reader pr = Scanning →
  accepts (image pr) (received pr) = Accepted →
  emits (image pr) (received pr ++ [req]) (consumed pr) = Overlong d l head →
  ∃ pr',
    handles pr' = (true, true, true) ∧ reader pr' ≠ Scanning
    ∧ received pr' = received pr ++ [req] ∧ consumed pr' = consumed pr
    ∧ (req = initReq → initialize pr = PReturns (Some ErrReadResponse) pr' d)
    ∧ (req = listReq → ListTools ctx pr = PReturns (Fail ErrReadResponse) pr' d)
    ∧ (req = callReq toolName arguments →
       CallTool ctx toolName arguments pr = PReturns (Fail ErrReadResponse) pr' d).
Proof.
  intros [= Ha Hi Ho] Hrd Hacc Hemit.
  exists (set_reader (Holding head) (push_received req pr)).
  assert (readResponse (push_received req pr)
          = PReturns (Fail ErrReadResponse)
              (set_reader (Holding head) (push_received req pr)) d) as Hread
    by (by apply (readResponse_overlong _ d l head)).
  split; [simpl; unfold handles; simpl; by rewrite Ha, Hi, Ho|].
  split; [done|]. split; [done|]. split; [done|].
  split; [|split]; intros ->.
  - unfold initialize, pbind, sendRequest, stdin_Write, pret.
    rewrite Hi, Hacc. simpl. rewrite Hread. f_equal. lia.
  - unfold ListTools, pbind, sendRequest, stdin_Write, pret.
    rewrite Hi, Hacc. simpl. rewrite Hread. f_equal. lia.
  - unfold CallTool, pbind, sendRequest, stdin_Write, pret.
    rewrite Hi, Hacc. simpl. rewrite Hread. f_equal. lia.
Qed.

Lemma overlong_line_fails_read_witness :
  let pr := mkProc (scripted [Overlong 4 (Doc (JObj [("result", JObj [])])) Garbage])
                   [] true true true [] 0 Scanning in
  ∃ pr', handles pr' = (true, true, true) ∧ consumed pr' = 0
         ∧ ListTools demo_ctx pr = PReturns (Fail ErrReadResponse) pr' 4.
Proof.
  cbv zeta.
  destruct (overlong_line_fails_read demo_ctx "" []
              (mkProc (scripted [Overlong 4 (Doc (JObj [("result", JObj [])])) Garbage])
                      [] true true true [] 0 Scanning)
              listReq 4 (Doc (JObj [("result", JObj [])])) Garbage
              eq_refl eq_refl eq_refl eq_refl)
    as (pr' & Hopen & _ & _ & Hcons & _ & Hlist & _).
  exists pr'. split; [done|]. split; [done|]. by apply Hlist.
Defined.

(** X28: once the scanner is spent (the stream ended, a read failed,
    or the bytes an over-long line left behind have been handed out),
    nothing is read from the provider again: every [ListTools] and
    [CallTool] whose request is taken fails with the read error at
    once, with the request written and the scanner still spent. *)
Theorem spent_reader_fails_calls ctx toolName arguments pr :
  stdin_open pr = true → reader pr = Spent →
  accepts (image pr) (received pr) = Accepted →
  ListTools ctx pr = PReturns (Fail ErrReadResponse) (push_received listReq pr) 0
  ∧ CallTool ctx toolName arguments pr
    = PReturns (Fail ErrReadResponse) (push_received (callReq toolName arguments) pr) 0
  ∧ reader (push_received listReq pr) = Spent
  ∧ reader (push_received (callReq toolName arguments) pr) = Spent.
Proof.
  intros Hi Hrd Hacc.
  split; [|split; [|done]].
  - unfold ListTools, pbind, sendRequest, stdin_Write, pret.
    rewrite Hi, Hacc. simpl. by rewrite readResponse_spent.
  - unfold CallTool, pbind, sendRequest, stdin_Write, pret.
    rewrite Hi, Hacc. simpl. by rewrite readResponse_spent.
Qed.

Lemma spent_reader_fails_calls_witness :
  let pr := mkProc (scripted [handshake_reply; tools_reply ["alpha"]])
                   [] true true true [initReq] 0 Spent in
  ListTools demo_ctx pr = PReturns (Fail ErrReadResponse) (push_received listReq pr) 0.
Proof.
  cbv zeta.
  apply (spent_reader_fails_calls demo_ctx "" []
           (mkProc (scripted [handshake_reply; tools_reply ["alpha"]])
                   [] true true true [initReq] 0 Spent)
           eq_refl eq_refl eq_refl).
Defined.
